(** * tracker.py: fetch, fingerprint, compare, persist

    A shallow embedding of [src/tracker.py] and of the library calls it makes
    ([json.dumps], [str.encode], [hashlib.sha256], [str.strip], [pathlib]
    text I/O, [requests]), followed by the properties of the specification.

    Conventions of the model.
    - A Python [str] is the list of its code points ([pystr], code points as
      [N]).  A [bytes] value is a list of [N] below 256.
    - A Python [int] is a [Z].  A [float] is carried by the text that
      [float.__repr__] (or [json]'s [NaN], [Infinity], [-Infinity]) gives
      for it: nothing in the program looks at a float in any other way.
    - A [dict] is the list of its items in insertion order; its keys are
      pairwise distinct ([wf_json]).  Decoded JSON has [str] keys only.
    - The interpreter's resource limits (recursion depth, memory, the digit
      limit of [int.__repr__]) are not modelled.
    - Text files are written as on POSIX, where [os.linesep] is the line
      feed and text mode writes the characters as they are. *)

From stdpp Require Import base list strings gmap sorting.
From Stdlib Require Import NArith ZArith DecimalString Ascii.
From Stdlib Require DecimalZ DecimalPos.

Local Open Scope N_scope.
Set Warnings "-register-all".

(** ** Python strings *)

Abbreviation pystr := (list N).

(** The code points of an ASCII literal. *)
Definition lit (s : string) : pystr :=
  N_of_ascii <$> String.list_ascii_of_string s.

Definition DQUOTE : N := 34.
Definition BACKSLASH : N := 92.
Definition LF : N := 10.
Definition CR : N := 13.
Definition SPACE : N := 32.

(** [a < b] on [str]: lexicographic on code points. *)
Fixpoint str_ltb (a b : pystr) : bool :=
  match a, b with
  | _, [] => false
  | [], _ :: _ => true
  | x :: a', y :: b' =>
      if x <? y then true else if y <? x then false else str_ltb a' b'
  end.

(** [sep.join(parts)] *)
Fixpoint join (sep : pystr) (parts : list pystr) : pystr :=
  match parts with
  | [] => []
  | [p] => p
  | p :: ps => p ++ sep ++ join sep ps
  end.

(** [str.isspace] on one character: the code points CPython's
    [_PyUnicode_IsWhitespace] accepts. *)
Definition isspace (c : N) : bool :=
  ((9 <=? c) && (c <=? 13)) || ((28 <=? c) && (c <=? 32))
  || (c =? 133) || (c =? 160) || (c =? 5760)
  || ((8192 <=? c) && (c <=? 8202))
  || (c =? 8232) || (c =? 8233) || (c =? 8239) || (c =? 8287)
  || (c =? 12288).

Fixpoint lstrip (s : pystr) : pystr :=
  match s with
  | [] => []
  | c :: t => if isspace c then lstrip t else s
  end.

Definition rstrip (s : pystr) : pystr := rev (lstrip (rev s)).

(** [s.strip()] with no argument *)
Definition strip (s : pystr) : pystr := rstrip (lstrip s).

(** Text mode with [newline=None] on input: every line end ([\r\n], [\r]
    or [\n]) is read as [\n]. *)
Fixpoint universal_newlines (s : pystr) : pystr :=
  match s with
  | [] => []
  | c :: t =>
      if c =? CR then
        LF :: match t with
              | d :: t' => if d =? LF then universal_newlines t'
                           else universal_newlines t
              | [] => []
              end
      else c :: universal_newlines t
  end.

(** ** Exceptions and results *)

Inductive exn :=
  | RequestException (what : pystr)   (* requests: connection, timeout, HTTP status *)
  | JSONDecodeError                   (* response.json() on a malformed body *)
  | UnicodeEncodeError                (* str.encode / text-mode write of a surrogate *)
  | OSError (what : pystr).           (* a filesystem call that fails *)

Inductive result (A : Type) :=
  | Ok (a : A)
  | Raise (e : exn).
Arguments Ok {A} a.
Arguments Raise {A} e.

(** ** UTF-8 *)

Definition is_surrogate (c : N) : bool := (55296 <=? c) && (c <=? 57343).

(** The bytes of one code point; [None] where the codec refuses it (the
    surrogates; a [str] holds nothing above U+10FFFF). *)
Definition utf8_char (c : N) : option (list N) :=
  if c <? 128 then Some [c]
  else if c <? 2048 then
    Some [N.lor 192 (N.shiftr c 6); N.lor 128 (N.land c 63)]
  else if is_surrogate c then None
  else if c <? 65536 then
    Some [N.lor 224 (N.shiftr c 12);
          N.lor 128 (N.land (N.shiftr c 6) 63);
          N.lor 128 (N.land c 63)]
  else if c <? 1114112 then
    Some [N.lor 240 (N.shiftr c 18);
          N.lor 128 (N.land (N.shiftr c 12) 63);
          N.lor 128 (N.land (N.shiftr c 6) 63);
          N.lor 128 (N.land c 63)]
  else None.

Fixpoint utf8_bytes (s : pystr) : option (list N) :=
  match s with
  | [] => Some []
  | c :: t =>
      match utf8_char c, utf8_bytes t with
      | Some b, Some bs => Some (b ++ bs)
      | _, _ => None
      end
  end.

(** [s.encode('utf-8')] *)
Definition encode_utf8 (s : pystr) : result (list N) :=
  match utf8_bytes s with
  | Some b => Ok b
  | None => Raise UnicodeEncodeError
  end.

(** ** JSON values and [json.dumps] *)

Inductive json :=
  | JNull
  | JBool (b : bool)
  | JInt (n : Z)
  | JFloat (repr : pystr)
  | JStr (s : pystr)
  | JList (l : list json)
  | JDict (items : list (pystr * json)).

(** [int.__repr__] *)
Definition int_repr (n : Z) : pystr :=
  lit (NilZero.string_of_int (Z.to_int n)).

Definition hexchar (d : N) : N := if d <? 10 then 48 + d else 87 + d.

(** [json.encoder.ESCAPE_DCT]: the replacement of one character matched by
    [ESCAPE] (the quote, the backslash and the controls below 0x20). *)
Definition escape_char (c : N) : pystr :=
  if c =? DQUOTE then [BACKSLASH; DQUOTE]
  else if c =? BACKSLASH then [BACKSLASH; BACKSLASH]
  else if c =? 8 then lit "\b"
  else if c =? 12 then lit "\f"
  else if c =? 10 then lit "\n"
  else if c =? 13 then lit "\r"
  else if c =? 9 then lit "\t"
  else if c <? 32 then lit "\u00" ++ [hexchar (c / 16); hexchar (c mod 16)]
  else [c].

(** [py_encode_basestring], the string encoder under [ensure_ascii=False]:
    everything else, non-ASCII included, is kept as it is. *)
Definition py_encode_basestring (s : pystr) : pystr :=
  DQUOTE :: concat (escape_char <$> s) ++ [DQUOTE].

(** [sorted(dct.items())].  Items are compared as tuples, so by key as long
    as the keys differ, which they do in a dict; [list.sort] is stable and
    only asks [<]. *)
Fixpoint insert_item {V} (x : pystr * V) (l : list (pystr * V))
  : list (pystr * V) :=
  match l with
  | [] => [x]
  | y :: l' =>
      if str_ltb y.1 x.1 then y :: insert_item x l' else x :: y :: l'
  end.

Definition sorted_items {V} (l : list (pystr * V)) : list (pystr * V) :=
  foldr insert_item [] l.

(** The encoder's settings that the two call sites vary.  Both pass
    [sort_keys=True] and [ensure_ascii=False], which are built in below. *)
Record encoder := {
  indent : option nat;
  item_separator : pystr;
  key_separator : pystr;
}.

(** ['\n' + indent * level], or nothing without [indent] *)
Definition newline_indent (e : encoder) (level : nat) : pystr :=
  match indent e with
  | None => []
  | Some n => LF :: replicate (n * level) SPACE
  end.

(** [JSONEncoder.iterencode], all chunks joined.  The values of a dict are
    encoded before the items are sorted: sorting reads keys only, so this
    is the source's order of work turned around for the sake of structural
    recursion ([sorted_items_encoded] below). *)
Fixpoint iterencode (e : encoder) (level : nat) (o : json) : pystr :=
  match o with
  | JNull => lit "null"
  | JBool true => lit "true"
  | JBool false => lit "false"
  | JInt n => int_repr n
  | JFloat t => t
  | JStr s => py_encode_basestring s
  | JList l =>
      match l with
      | [] => lit "[]"
      | _ =>
          let nl := newline_indent e (S level) in
          lit "[" ++ nl
            ++ join (item_separator e ++ nl) (iterencode e (S level) <$> l)
            ++ newline_indent e level ++ lit "]"
      end
  | JDict items =>
      match items with
      | [] => lit "{}"
      | _ =>
          let nl := newline_indent e (S level) in
          let encoded :=
            (λ kv : pystr * json, (kv.1, iterencode e (S level) kv.2)) <$> items in
          lit "{" ++ nl
            ++ join (item_separator e ++ nl)
                 ((λ kv : pystr * pystr,
                     py_encode_basestring kv.1 ++ key_separator e ++ kv.2)
                    <$> sorted_items encoded)
            ++ newline_indent e level ++ lit "}"
      end
  end.

(** [json.dumps(data, sort_keys=True, separators=(',', ':'), ensure_ascii=False)] *)
Definition compact : encoder :=
  {| indent := None; item_separator := lit ","; key_separator := lit ":" |}.

(** [json.dump(data, f, indent=2, ensure_ascii=False, sort_keys=True)]:
    with an indent and no separators given, the item separator is [','] and
    the key separator is [': ']. *)
Definition pretty : encoder :=
  {| indent := Some 2%nat; item_separator := lit ","; key_separator := lit ": " |}.

Definition json_dumps (e : encoder) (data : json) : pystr :=
  iterencode e 0 data.

(** ** [hashlib.sha256] (FIPS 180-4), on 32-bit words held in [N] *)

Definition add32 (x y : N) : N := (x + y) mod 4294967296.

Definition rotr (n x : N) : N :=
  N.lor (N.shiftr x n) (N.land (N.shiftl x (32 - n)) 4294967295).

Definition Ch (x y z : N) : N :=
  N.lxor (N.land x y) (N.land (N.lxor x 4294967295) z).

Definition Maj (x y z : N) : N :=
  N.lxor (N.lxor (N.land x y) (N.land x z)) (N.land y z).

Definition Sigma0 (x : N) : N := N.lxor (N.lxor (rotr 2 x) (rotr 13 x)) (rotr 22 x).
Definition Sigma1 (x : N) : N := N.lxor (N.lxor (rotr 6 x) (rotr 11 x)) (rotr 25 x).
Definition sigma0 (x : N) : N := N.lxor (N.lxor (rotr 7 x) (rotr 18 x)) (N.shiftr x 3).
Definition sigma1 (x : N) : N := N.lxor (N.lxor (rotr 17 x) (rotr 19 x)) (N.shiftr x 10).

Definition K256 : list N :=
  [1116352408; 1899447441; 3049323471; 3921009573; 961987163; 1508970993;
   2453635748; 2870763221; 3624381080; 310598401; 607225278; 1426881987;
   1925078388; 2162078206; 2614888103; 3248222580; 3835390401; 4022224774;
   264347078; 604807628; 770255983; 1249150122; 1555081692; 1996064986;
   2554220882; 2821834349; 2952996808; 3210313671; 3336571891; 3584528711;
   113926993; 338241895; 666307205; 773529912; 1294757372; 1396182291;
   1695183700; 1986661051; 2177026350; 2456956037; 2730485921; 2820302411;
   3259730800; 3345764771; 3516065817; 3600352804; 4094571909; 275423344;
   430227734; 506948616; 659060556; 883997877; 958139571; 1322822218;
   1537002063; 1747873779; 1955562222; 2024104815; 2227730452; 2361852424;
   2428436474; 2756734187; 3204031479; 3329325298].

(** The eight working words, and the hash value between blocks. *)
Record regs := Regs { ra : N; rb : N; rc : N; rd : N; re : N; rf : N; rg : N; rh : N }.

Definition H_init : regs :=
  Regs 1779033703 3144134277 1013904242 2773480762
       1359893119 2600822924 528734635 1541459225.

(** Padding: the bit 1, zeros up to 56 modulo 64, the bit length on 8 bytes. *)
Definition be64 (n : N) : list N :=
  (λ i, N.shiftr n (8 * i) mod 256) <$> [7; 6; 5; 4; 3; 2; 1; 0].

Definition pad (msg : list N) : list N :=
  let len := N.of_nat (length msg) in
  msg ++ [128]
      ++ replicate (N.to_nat ((64 - (len + 9) mod 64) mod 64)) 0
      ++ be64 (8 * len).

Fixpoint blocks (n : nat) (bs : list N) : list (list N) :=
  match n with
  | O => []
  | S n' => take 64 bs :: blocks n' (drop 64 bs)
  end.

Fixpoint be_words (bs : list N) : list N :=
  match bs with
  | b0 :: b1 :: b2 :: b3 :: t =>
      (N.shiftl b0 24 + N.shiftl b1 16 + N.shiftl b2 8 + b3) :: be_words t
  | _ => []
  end.

(** The message schedule, latest word first: [W t] from the sixteen before. *)
Fixpoint schedule (n : nat) (rw : list N) : list N :=
  match n with
  | O => rw
  | S n' =>
      let w := add32 (add32 (sigma1 (nth 1 rw 0)) (nth 6 rw 0))
                     (add32 (sigma0 (nth 14 rw 0)) (nth 15 rw 0)) in
      schedule n' (w :: rw)
  end.

Definition round (r : regs) (kw : N * N) : regs :=
  let t1 := add32 (add32 (add32 (rh r) (Sigma1 (re r)))
                         (add32 (Ch (re r) (rf r) (rg r)) kw.1)) kw.2 in
  let t2 := add32 (Sigma0 (ra r)) (Maj (ra r) (rb r) (rc r)) in
  Regs (add32 t1 t2) (ra r) (rb r) (rc r) (add32 (rd r) t1) (re r) (rf r) (rg r).

Definition compress (hv : regs) (block : list N) : regs :=
  let w := rev (schedule 48 (rev (be_words block))) in
  let r := foldl round hv (zip K256 w) in
  Regs (add32 (ra hv) (ra r)) (add32 (rb hv) (rb r))
       (add32 (rc hv) (rc r)) (add32 (rd hv) (rd r))
       (add32 (re hv) (re r)) (add32 (rf hv) (rf r))
       (add32 (rg hv) (rg r)) (add32 (rh hv) (rh r)).

(** [hashlib.sha256(data)]: the hash object after the data were fed. *)
Definition sha256 (data : list N) : regs :=
  let p := pad data in
  foldl compress H_init (blocks (length p / 64) p).

Definition hex8 (w : N) : pystr :=
  (λ i, hexchar (N.shiftr w (4 * i) mod 16)) <$> [7; 6; 5; 4; 3; 2; 1; 0].

(** [.hexdigest()] *)
Definition hexdigest (r : regs) : pystr :=
  hex8 (ra r) ++ hex8 (rb r) ++ hex8 (rc r) ++ hex8 (rd r)
    ++ hex8 (re r) ++ hex8 (rf r) ++ hex8 (rg r) ++ hex8 (rh r).

(** ** The program's pure part *)

(** [calculate_hash]: the compact, key-sorted text, its UTF-8 bytes, their
    SHA-256 in hexadecimal. *)
Definition calculate_hash (data : json) : result pystr :=
  let json_str := json_dumps compact data in
  match encode_utf8 json_str with
  | Ok b => Ok (hexdigest (sha256 b))
  | Raise e => Raise e
  end.

(** ** The world the program runs in *)

(** What [requests.get] meets: no answer, or a response with its status
    and its body, [None] for a body that is not JSON. *)
Inductive response :=
  | ConnectionFailed (what : pystr)
  | TimedOut
  | HttpResponse (status : N) (body : option json).

Record datetime := {
  year : N; month : N; day : N; hour : N; minute : N; second : N;
}.

(** A filesystem call that fails: before it touches the file, or while
    writing, with [kept] characters already in the file. *)
Inductive fault :=
  | FailOpen
  | FailWrite (kept : nat).

Inductive event :=
  | Printed (line : pystr)
  | Requested (url : pystr)
  | MadeDir (path : pystr)
  | Wrote (path text : pystr).

(** [files] are the regular files, [dirs] the directories.  Files hold
    text, stored as UTF-8: the store keeps the [str].  Paths are relative to
    the directory of the script, which exists.  [network], [clock] and
    [faults] are what the environment will answer, in order, to the
    requests, the clock readings and the filesystem calls to come: a call
    fails when [faults] says so, whatever the reason (permissions, a full
    disk, something in the way); a call past its end succeeds.  [trace] is
    what the program did so far, oldest first. *)
Record world := {
  files : gmap pystr pystr;
  dirs : gset pystr;
  network : list response;
  clock : list datetime;
  faults : list (option fault);
  trace : list event;
}.

Definition set_files (f : gmap pystr pystr) (w : world) : world :=
  {| files := f; dirs := dirs w; network := network w; clock := clock w;
     faults := faults w; trace := trace w |}.
Definition set_dirs (d : gset pystr) (w : world) : world :=
  {| files := files w; dirs := d; network := network w; clock := clock w;
     faults := faults w; trace := trace w |}.
Definition set_network (n : list response) (w : world) : world :=
  {| files := files w; dirs := dirs w; network := n; clock := clock w;
     faults := faults w; trace := trace w |}.
Definition set_clock (c : list datetime) (w : world) : world :=
  {| files := files w; dirs := dirs w; network := network w; clock := c;
     faults := faults w; trace := trace w |}.
Definition set_faults (f : list (option fault)) (w : world) : world :=
  {| files := files w; dirs := dirs w; network := network w; clock := clock w;
     faults := f; trace := trace w |}.
Definition emit (e : event) (w : world) : world :=
  {| files := files w; dirs := dirs w; network := network w; clock := clock w;
     faults := faults w; trace := trace w ++ [e] |}.

(** ** Computations: a world in, a value or an exception and a world out *)

Definition M (A : Type) : Type := world → result A * world.

#[global] Instance M_ret : MRet M := λ A a w, (Ok a, w).
#[global] Instance M_bind : MBind M := λ A B k m w,
  match m w with
  | (Ok a, w') => k a w'
  | (Raise e, w') => (Raise e, w')
  end.

Definition raise {A} (e : exn) : M A := λ w, (Raise e, w).
Definition lift {A} (r : result A) : M A := λ w, (r, w).
Definition update (f : world → world) : M unit := λ w, (Ok (), f w).

(** [try: ... except ...]: the outcome of the body, as a value. *)
Definition try {A} (m : M A) : M (result A) := λ w,
  let '(r, w') := m w in (Ok r, w').

Definition print (line : pystr) : M unit := update (emit (Printed line)).

(** The oracle's word on the next filesystem call. *)
Definition next_fault : M (option fault) := λ w,
  (Ok (default None (head (faults w))), set_faults (tail (faults w)) w).

(** ** [pathlib], [open], [datetime] *)

(** [dir / name] *)
Definition path_join (dir name : pystr) : pystr := dir ++ lit "/" ++ name.

(** [Path.exists()] *)
Definition path_exists (path : pystr) : M bool := λ w,
  (Ok (bool_decide (is_Some (files w !! path) ∨ path ∈ dirs w)), w).

(** [Path.read_text(encoding='utf-8')]: text mode, universal newlines. *)
Definition read_text (path : pystr) : M pystr :=
  f ← next_fault;
  match f with
  | Some _ => raise (OSError path)
  | None => λ w,
      match files w !! path with
      | Some text => (Ok (universal_newlines text), w)
      | None => (Raise (OSError path), w)
      end
  end.

(** Writing [text] to [path] in mode ['w'] with [encoding='utf-8'], through
    [Path.write_text] or [open] and [write]; [parent] is the directory the
    path goes through, if it is not the script's own.  Opening truncates.
    A text the codec refuses raises with nothing written by that call; how
    much an earlier call of the same [with] block got out is not modelled,
    and [main] never comes here with such a text ([calculate_hash] raises
    on it first). *)
Definition write_file (parent : option pystr) (path text : pystr) : M unit :=
  f ← next_fault;
  match f with
  | Some FailOpen => raise (OSError path)
  | Some (FailWrite k) =>
      update (λ w, set_files (<[path := take k text]> (files w)) w) ;;
      raise (OSError path)
  | None => λ w,
      if from_option (λ d, bool_decide (d ∉ dirs w)) false parent
      then (Raise (OSError path), w)
      else
        match encode_utf8 text with
        | Raise e => (Raise e, set_files (<[path := []]> (files w)) w)
        | Ok _ =>
            (Ok (), emit (Wrote path text) (set_files (<[path := text]> (files w)) w))
        end
  end.

(** [Path.mkdir(exist_ok=True)]: an existing directory is accepted. *)
Definition mkdir_exist_ok (path : pystr) : M unit :=
  f ← next_fault;
  match f with
  | Some _ => raise (OSError path)
  | None => λ w,
      if bool_decide (path ∈ dirs w) then (Ok (), w)
      else (Ok (), emit (MadeDir path) (set_dirs ({[path]} ∪ dirs w) w))
  end.

Definition epoch : datetime :=
  {| year := 1970; month := 1; day := 1; hour := 0; minute := 0; second := 0 |}.

(** [datetime.now(timezone.utc)] *)
Definition datetime_now : M datetime := λ w,
  (Ok (default epoch (head (clock w))), set_clock (tail (clock w)) w).

(** A number in decimal, zero-padded on the left to [width] digits. *)
Definition zero_padded (width : nat) (n : N) : pystr :=
  let d := int_repr (Z.of_N n) in
  replicate (width - length d) 48 ++ d.

(** [strftime("%Y%m%d_%H%M%S")] *)
Definition strftime (t : datetime) : pystr :=
  zero_padded 4 (year t) ++ zero_padded 2 (month t) ++ zero_padded 2 (day t)
    ++ lit "_"
    ++ zero_padded 2 (hour t) ++ zero_padded 2 (minute t) ++ zero_padded 2 (second t).

(** ** [requests] *)

(** [requests.get(url, timeout=30)]: the next answer of the network; no
    answer (or none within the timeout) raises. *)
Definition requests_get (url : pystr) : M response := λ w,
  match network w with
  | [] => (Raise (RequestException (lit "no connection")), emit (Requested url) w)
  | ConnectionFailed what :: rs =>
      (Raise (RequestException what), emit (Requested url) (set_network rs w))
  | TimedOut :: rs =>
      (Raise (RequestException (lit "timed out")), emit (Requested url) (set_network rs w))
  | r :: rs => (Ok r, emit (Requested url) (set_network rs w))
  end.

(** [response.raise_for_status()]: the statuses from 400 to 599 raise. *)
Definition raise_for_status (r : response) : M unit :=
  match r with
  | HttpResponse status _ =>
      if (400 <=? status) && (status <? 600)
      then raise (RequestException (lit "HTTP error"))
      else mret ()
  | _ => mret ()
  end.

(** [response.json()] *)
Definition response_json (r : response) : M json :=
  match r with
  | HttpResponse _ (Some data) => mret data
  | _ => raise JSONDecodeError
  end.

(** [str(e)] *)
Definition exn_str (e : exn) : pystr :=
  match e with
  | RequestException what => what
  | JSONDecodeError => lit "Expecting value"
  | UnicodeEncodeError => lit "surrogates not allowed"
  | OSError what => what
  end.

(** [isinstance(e, requests.RequestException)].  The [JSONDecodeError] that
    [response.json()] raises is one since requests 2.27; before, it was a
    plain [ValueError], which the second handler of [main] reports. *)
Definition is_request_exception (e : exn) : bool :=
  match e with
  | RequestException _ | JSONDecodeError => true
  | _ => false
  end.

(** ** The program *)

Definition download_json (url : pystr) : M json :=
  response ← requests_get url;
  raise_for_status response ;;
  response_json response.

Definition read_last_hash (file_path : pystr) : M pystr :=
  present ← path_exists file_path;
  if (present : bool) then
    text ← read_text file_path;
    mret (strip text)
  else mret [].

Definition save_hash (file_path hash_value : pystr) : M unit :=
  write_file None file_path (hash_value ++ [LF]).

Definition save_snapshot (data : json) (snapshots_dir : pystr) : M unit :=
  mkdir_exist_ok snapshots_dir ;;
  now ← datetime_now;
  let timestamp := strftime now in
  let snapshot_file := path_join snapshots_dir (lit "tour_" ++ timestamp ++ lit ".json") in
  write_file (Some snapshots_dir) snapshot_file (json_dumps pretty data ++ [LF]) ;;
  print (lit "Snapshot saved: " ++ snapshot_file).

Definition url : pystr :=
  lit "https://ibighit.com/data/tour_ticket/tour_schedule_list.json".
Definition last_hash_file : pystr := lit "last_hash.txt".
Definition snapshots_dir : pystr := lit "snapshots".

Definition main : M unit :=
  print (lit "Downloading data from " ++ url) ;;
  fetched ← try (download_json url);
  match fetched with
  | Raise e =>
      if is_request_exception e
      then print (lit "Error downloading data: " ++ exn_str e)
      else print (lit "Unexpected error: " ++ exn_str e)
  | Ok data =>
      current_hash ← lift (calculate_hash data);
      last_hash ← read_last_hash last_hash_file;
      print (lit "Current hash: " ++ current_hash) ;;
      print (lit "Last hash: " ++ last_hash) ;;
      if bool_decide (current_hash ≠ last_hash) then
        print (lit "Data has changed!") ;;
        save_snapshot data snapshots_dir ;;
        save_hash last_hash_file current_hash ;;
        print (lit "Hash updated successfully")
      else
        print (lit "No changes detected")
  end.

(** ** Vocabulary of the properties *)

(** An ASCII literal between double quotes. *)
Definition quoted (s : string) : pystr := DQUOTE :: lit s ++ [DQUOTE].

(** [0-9a-f] *)
Definition lower_hex (c : N) : bool :=
  ((48 <=? c) && (c <=? 57)) || ((97 <=? c) && (c <=? 102)).

(** A code point the UTF-8 codec accepts: not a surrogate. *)
Definition scalar (c : N) : bool := (c <? 1114112) && negb (is_surrogate c).

Definition encodable (s : pystr) : bool := forallb scalar s.

(** Every [str] of the value (strings, keys, the text of floats) is free of
    surrogates. *)
Fixpoint json_encodable (o : json) : bool :=
  match o with
  | JNull | JBool _ | JInt _ => true
  | JFloat t => encodable t
  | JStr s => encodable s
  | JList l => forallb json_encodable l
  | JDict items =>
      forallb (λ kv : pystr * json, encodable kv.1 && json_encodable kv.2) items
  end.

(** The keys of every dict are pairwise distinct, as in any Python dict. *)
Fixpoint wf_json (o : json) : bool :=
  match o with
  | JList l => forallb wf_json l
  | JDict items =>
      bool_decide (NoDup items.*1)
      && forallb (λ kv : pystr * json, wf_json kv.2) items
  | _ => true
  end.

(** Two values that differ in the order of the keys of their dicts only, at
    any depth. *)
Inductive reorder : json → json → Prop :=
  | reorder_null : reorder JNull JNull
  | reorder_bool b : reorder (JBool b) (JBool b)
  | reorder_int n : reorder (JInt n) (JInt n)
  | reorder_float t : reorder (JFloat t) (JFloat t)
  | reorder_str s : reorder (JStr s) (JStr s)
  | reorder_list l1 l2 :
      Forall2 reorder l1 l2 → reorder (JList l1) (JList l2)
  | reorder_dict items1 items items2 :
      items1 ≡ₚ items →
      Forall2 (λ a b : pystr * json, a.1 = b.1 ∧ reorder a.2 b.2) items items2 →
      reorder (JDict items1) (JDict items2).

(** [x <= y] as [list.sort] sees it: not [y < x], on the keys. *)
Definition item_le {V} (x y : pystr * V) : Prop := str_ltb y.1 x.1 = false.

(** The shape of a fingerprint: 64 characters, all in [0-9a-f]. *)
Definition fingerprint (h : pystr) : Prop :=
  length h = 64%nat ∧ Forall (λ c, lower_hex c = true) h.

Fixpoint starts_with (pre s : pystr) : bool :=
  match pre, s with
  | [], _ => true
  | c :: pre', d :: s' => (c =? d) && starts_with pre' s'
  | _ :: _, [] => false
  end.

(** A path inside the snapshots directory. *)
Definition in_snapshots (path : pystr) : bool :=
  starts_with (path_join snapshots_dir []) path.

(** The name [save_snapshot] gives the snapshot taken at [t]. *)
Definition snapshot_path (t : datetime) : pystr :=
  path_join snapshots_dir (lit "tour_" ++ strftime t ++ lit ".json").

(** *** The ends a run of [main] can come to

    The events of a run, by the state of the orchestrator it ends in, with
    what is known of the files it leaves. *)

Definition downloading : event :=
  Printed (lit "Downloading data from " ++ url).

(** The line either handler of [main] prints. *)
Definition report (e : exn) : pystr :=
  (if is_request_exception e then lit "Error downloading data: "
   else lit "Unexpected error: ") ++ exn_str e.

Definition comparing (current last : pystr) : list event :=
  [Printed (lit "Current hash: " ++ current); Printed (lit "Last hash: " ++ last)].

Definition snapshot_saved (t : datetime) (text : pystr) : list event :=
  [Wrote (snapshot_path t) text;
   Printed (lit "Snapshot saved: " ++ snapshot_path t)].

(** [mkdir] made the directory, or found it. *)
Definition made_dir (mk : list event) : Prop :=
  mk = [] ∨ mk = [MadeDir snapshots_dir].

Inductive run (w : world) : result unit → world → list event → Prop :=
  | run_aborted e w' :
      (* Fetching failed: reported, nothing else done *)
      files w' = files w → dirs w' = dirs w →
      run w (Ok ()) w' [downloading; Requested url; Printed (report e)]
  | run_raised_early e w' :
      (* Hashing, or reading the record, raised *)
      is_request_exception e = false →
      files w' = files w → dirs w' = dirs w →
      run w (Raise e) w' [downloading; Requested url]
  | run_unchanged h w' :
      files w' = files w → dirs w' = dirs w →
      run w (Ok ()) w'
        ([downloading; Requested url] ++ comparing h h
           ++ [Printed (lit "No changes detected")])
  | run_snapshot_raised h last e mk w' :
      (* Persisting: the snapshot writer raised *)
      h ≠ last → made_dir mk → is_request_exception e = false →
      files w' !! last_hash_file = files w !! last_hash_file →
      run w (Raise e) w'
        ([downloading; Requested url] ++ comparing h last
           ++ [Printed (lit "Data has changed!")] ++ mk)
  | run_record_raised h last e mk t text w' :
      (* Persisting: the snapshot is written, the record writer raised *)
      h ≠ last → made_dir mk → is_request_exception e = false →
      files w' !! snapshot_path t = Some text →
      run w (Raise e) w'
        ([downloading; Requested url] ++ comparing h last
           ++ [Printed (lit "Data has changed!")] ++ mk ++ snapshot_saved t text)
  | run_done h last mk t text w' :
      h ≠ last → made_dir mk →
      files w' = <[last_hash_file := h ++ [LF]]> (<[snapshot_path t := text]> (files w)) →
      run w (Ok ()) w'
        ([downloading; Requested url] ++ comparing h last
           ++ [Printed (lit "Data has changed!")] ++ mk ++ snapshot_saved t text
           ++ [Wrote last_hash_file (h ++ [LF]);
               Printed (lit "Hash updated successfully")]).

(** Text that UTF-8 can encode, character by character. *)
Abbreviation ok := (Forall (λ c : N, scalar c = true)).

(** Whitespace only. *)
Abbreviation blank := (Forall (λ c : N, isspace c = true)).

(** No filesystem call to come fails. *)
Definition calm (w : world) : Prop := Forall (λ f, f = None) (faults w).

(** No fingerprint record exists. *)
Definition record_absent (w : world) : Prop :=
  files w !! last_hash_file = None ∧ last_hash_file ∉ dirs w.

(** The record is not [h]: there is none, or it reads as something else. *)
Definition record_differs (w : world) (h : pystr) : Prop :=
  record_absent w
  ∨ ∃ text, files w !! last_hash_file = Some text
            ∧ strip (universal_newlines text) ≠ h.

(** A status [raise_for_status] lets through. *)
Definition accepted (status : N) : bool :=
  negb ((400 <=? status) && (status <? 600)).

(** A response on which [download_json] raises. *)
Definition failing (r : response) : bool :=
  match r with
  | ConnectionFailed _ | TimedOut => true
  | HttpResponse status body =>
      negb (accepted status) || bool_decide (body = None)
  end.

(** The next request fails: no connection, a timeout, a status that
    [raise_for_status] refuses (400 to 599), or a body that is not JSON. *)
Definition fetch_fails (w : world) : bool :=
  match network w with
  | [] => true
  | r :: _ => failing r
  end.

(** The events a computation adds to the trace. *)
Definition new_events {A} (m : M A) (w : world) : list event :=
  drop (length (trace w)) (trace (m w).2).

Definition snapshot_writes (evs : list event) : list (pystr * pystr) :=
  omap (λ e, match e with
             | Wrote p t => if in_snapshots p then Some (p, t) else None
             | _ => None
             end) evs.

Definition record_writes (evs : list event) : list pystr :=
  omap (λ e, match e with
             | Wrote p t => if bool_decide (p = last_hash_file) then Some t else None
             | _ => None
             end) evs.

Definition printed (evs : list event) : list pystr :=
  omap (λ e, match e with Printed l => Some l | _ => None end) evs.

(** The world once [main] has compared and found a change: lines 71, 72
    and 75 printed. *)
Definition changed (h last : pystr) (w : world) : world :=
  emit (Printed (lit "Data has changed!"))
    (emit (Printed (lit "Last hash: " ++ last))
       (emit (Printed (lit "Current hash: " ++ h)) w)).

(** A step of [main] after the fetch raises [e]: with [data] fetched and
    the world then [w1], line 68, 69, 76 or 77 raises, the lines before it
    having returned. *)
Inductive later_raise (data : json) (w1 : world) (e : exn) : Prop :=
  | hash_raises :
      calculate_hash data = Raise e →
      later_raise data w1 e
  | read_raises h :
      calculate_hash data = Ok h →
      (read_last_hash last_hash_file w1).1 = Raise e →
      later_raise data w1 e
  | snapshot_raises h last w2 :
      calculate_hash data = Ok h →
      read_last_hash last_hash_file w1 = (Ok last, w2) → h ≠ last →
      (save_snapshot data snapshots_dir (changed h last w2)).1 = Raise e →
      later_raise data w1 e
  | record_raises h last w2 w3 :
      calculate_hash data = Ok h →
      read_last_hash last_hash_file w1 = (Ok last, w2) → h ≠ last →
      save_snapshot data snapshots_dir (changed h last w2) = (Ok (), w3) →
      (save_hash last_hash_file h w3).1 = Raise e →
      later_raise data w1 e.

(** ** Examples *)

Definition doc_ba : json := JDict [(lit "b", JInt 2); (lit "a", JInt 1)].
Definition doc_ab : json := JDict [(lit "a", JInt 1); (lit "b", JInt 2)].

(** The same nested document, its keys in two orders at both levels. *)
Definition tour_1 : json :=
  JDict [(lit "tour", JList [JDict [(lit "city", JStr (lit "Seoul")); (lit "sold", JBool true)]]);
         (lit "count", JInt 1)].
Definition tour_2 : json :=
  JDict [(lit "count", JInt 1);
         (lit "tour", JList [JDict [(lit "sold", JBool true); (lit "city", JStr (lit "Seoul"))]])].

Definition canonical_ba : pystr :=
  lit "{" ++ quoted "a" ++ lit ":1," ++ quoted "b" ++ lit ":2}".

Definition snapshot_ba : pystr :=
  lit "{" ++ [LF] ++ lit "  " ++ quoted "a" ++ lit ": 1," ++ [LF]
    ++ lit "  " ++ quoted "b" ++ lit ": 2" ++ [LF] ++ lit "}" ++ [LF].

Definition digest_ba : pystr :=
  lit "43258cff783fe7036d8a43033f830adfc60ec037382473548ac742b888292777".

Definition noon : datetime :=
  {| year := 2024; month := 3; day := 9; hour := 12; minute := 0; second := 5 |}.

(** A first run: nothing on disk, the server answers twice with the same
    document. *)
Definition w_first : world :=
  {| files := ∅; dirs := ∅;
     network := [HttpResponse 200 (Some doc_ba); HttpResponse 200 (Some doc_ba)];
     clock := [noon; noon]; faults := []; trace := [] |}.

(** The same, with the write of the snapshot failing after 5 characters. *)
Definition w_disk_full : world :=
  {| files := ∅; dirs := ∅;
     network := [HttpResponse 200 (Some doc_ba)];
     clock := [noon]; faults := [None; Some (FailWrite 5)]; trace := [] |}.

Definition w_timeout : world :=
  {| files := {[ last_hash_file := digest_ba ++ [LF] ]}; dirs := ∅;
     network := [TimedOut]; clock := [noon]; faults := []; trace := [] |}.

(** A record padded with blank lines and spaces, line ends of all kinds. *)
Definition w_padded : world :=
  {| files := {[ last_hash_file := [LF; SPACE] ++ digest_ba ++ [SPACE; CR; LF; CR; 9] ]};
     dirs := ∅; network := [HttpResponse 200 (Some doc_ba)];
     clock := [noon]; faults := []; trace := [] |}.

(** A document with a string that is one lone surrogate, as [json.loads]
    decodes the escape [\ud800]. *)
Definition lone_surrogate : json := JDict [(lit "city", JStr [55296])].

(** ** Further vocabulary *)

(** The requests sent, oldest first. *)
Definition requested (evs : list event) : list pystr :=
  omap (λ e, match e with Requested u => Some u | _ => None end) evs.

(** [n] runs, one after the other. *)
Fixpoint runs (n : nat) : M unit :=
  match n with
  | O => mret ()
  | S k => main ;; runs k
  end.

(** [p] on every number of [d] bits after the prefix [base]: a check of all
    the numbers of a range by evaluation. *)
Fixpoint all_bits (d : nat) (base : N) (p : N → bool) : bool :=
  match d with
  | O => p base
  | S d' => all_bits d' (2 * base) p && all_bits d' (2 * base + 1) p
  end.

(** A moment [datetime.now] can give, in the years of four digits. *)
Definition valid_datetime (t : datetime) : bool :=
  (1000 <=? year t) && (year t <=? 9999)
  && (1 <=? month t) && (month t <=? 12)
  && (1 <=? day t) && (day t <=? 31)
  && (hour t <=? 23) && (minute t <=? 59) && (second t <=? 59).

Definition is_digit (c : N) : bool := (48 <=? c) && (c <=? 57).

(** ** Decoding UTF-8, as [read_text(encoding='utf-8')] does: strictly *)

Definition continuation (b : N) : bool := (128 <=? b) && (b <=? 191).

(** The code point of a sequence of two, three or four bytes, if it is well
    formed: continuation bytes, the shortest form, no surrogate, nothing
    above U+10FFFF. *)
Definition utf8_seq2 (b0 b1 : N) : option N :=
  if (194 <=? b0) && (b0 <=? 223) && continuation b1
  then Some ((b0 - 192) * 64 + (b1 - 128))
  else None.

Definition utf8_seq3 (b0 b1 b2 : N) : option N :=
  let c := (b0 - 224) * 4096 + (b1 - 128) * 64 + (b2 - 128) in
  if (224 <=? b0) && (b0 <=? 239) && continuation b1 && continuation b2
     && (2048 <=? c) && negb (is_surrogate c)
  then Some c
  else None.

Definition utf8_seq4 (b0 b1 b2 b3 : N) : option N :=
  let c := (b0 - 240) * 262144 + (b1 - 128) * 4096 + (b2 - 128) * 64 + (b3 - 128) in
  if (240 <=? b0) && (b0 <=? 244) && continuation b1 && continuation b2
     && continuation b3 && (65536 <=? c) && (c <? 1114112)
  then Some c
  else None.

(** [b.decode('utf-8')], [None] where it raises [UnicodeDecodeError]. *)
Fixpoint decode_utf8 (bs : list N) : option pystr :=
  match bs with
  | [] => Some []
  | b0 :: r0 =>
      if b0 <? 128 then cons b0 <$> decode_utf8 r0
      else if b0 <? 224 then
        match r0 with
        | b1 :: r1 =>
            match utf8_seq2 b0 b1 with
            | Some c => cons c <$> decode_utf8 r1
            | None => None
            end
        | _ => None
        end
      else if b0 <? 240 then
        match r0 with
        | b1 :: b2 :: r2 =>
            match utf8_seq3 b0 b1 b2 with
            | Some c => cons c <$> decode_utf8 r2
            | None => None
            end
        | _ => None
        end
      else
        match r0 with
        | b1 :: b2 :: b3 :: r3 =>
            match utf8_seq4 b0 b1 b2 b3 with
            | Some c => cons c <$> decode_utf8 r3
            | None => None
            end
        | _ => None
        end
  end.

(** What the decoder makes of the bytes of one code point, and their range. *)
Definition decodes_back (c : N) : bool :=
  match utf8_char c with
  | None => true
  | Some bs =>
      forallb (λ b, b <? 256) bs
      && match bs with
         | [b0] => (b0 <? 128) && (b0 =? c)
         | [b0; b1] =>
             negb (b0 <? 128) && (b0 <? 224)
             && from_option (N.eqb c) false (utf8_seq2 b0 b1)
         | [b0; b1; b2] =>
             negb (b0 <? 224) && (b0 <? 240)
             && from_option (N.eqb c) false (utf8_seq3 b0 b1 b2)
         | [b0; b1; b2; b3] =>
             negb (b0 <? 240)
             && from_option (N.eqb c) false (utf8_seq4 b0 b1 b2 b3)
         | _ => false
         end
  end.

(** ** Reading the compact text back *)

(** A character of [int.__repr__]: a digit or the sign. *)
Definition int_char (c : N) : bool := is_digit c || (c =? 45).

(** A character of the text the encoder gives a float: [float.__repr__]
    (digits, sign, point, exponent) or one of [Infinity], [-Infinity] and
    [NaN]. *)
Definition float_char (c : N) : bool :=
  int_char c || (c =? 43) || (c =? 46) || (c =? 101)
  || bool_decide (c ∈ lit "InfityNa").

(** The text of a float: it starts as a number, [Infinity] or [NaN] does,
    and is not the text of an [int]. *)
Definition float_text (t : pystr) : bool :=
  match t with
  | [] => false
  | c :: _ =>
      (int_char c || (c =? 73) || (c =? 78))
      && forallb float_char t && negb (forallb int_char t)
  end.

(** Every float of the value has such a text. *)
Fixpoint plain_floats (o : json) : bool :=
  match o with
  | JFloat t => float_text t
  | JList l => forallb plain_floats l
  | JDict items => forallb (λ kv : pystr * json, plain_floats kv.2) items
  | _ => true
  end.

(** What may follow a value in the compact text: nothing, the item
    separator, or the end of the enclosing list or dict. *)
Definition closes (c : N) : bool := (c =? 44) || (c =? 93) || (c =? 125).

Definition delimited (r : pystr) : Prop :=
  match r with
  | [] => True
  | c :: _ => closes c = true
  end.

(** The escapes of two characters below 128: neither text starts the
    other, and none starts with the quote. *)
Definition escapes_apart (c1 : N) : bool :=
  match escape_char c1 with
  | [] => false
  | h :: _ =>
      negb (h =? DQUOTE) && (h <? 128)
      && all_bits 7 0 (λ c2,
           negb (bool_decide (escape_char c1 `prefix_of` escape_char c2))
           || (c1 =? c2))
  end.

(** The values written as a bare word: [null], [true], [false] and the
    numbers. *)
Definition word (o : json) : bool :=
  match o with
  | JNull | JBool _ | JInt _ | JFloat _ => true
  | _ => false
  end.

(** How a text begins tells strings, lists, dicts and words apart. *)
Definition lead (o : json) (c : N) : Prop :=
  match o with
  | JStr _ => c = 34
  | JList _ => c = 91
  | JDict _ => c = 123
  | _ => c ≠ 34 ∧ c ≠ 91 ∧ c ≠ 123
  end.

(** One item of a dict in the compact text. *)
Definition item_text (l : nat) (kv : pystr * json) : pystr :=
  py_encode_basestring kv.1 ++ 58 :: iterencode compact l kv.2.

(** ** Further examples *)

Definition doc_b3 : json := JDict [(lit "b", JInt 3); (lit "a", JInt 1)].

Definition digest_b3 : pystr :=
  Eval vm_compute in match calculate_hash doc_b3 with Ok h => h | Raise _ => [] end.

Definition later : datetime :=
  {| year := 2024; month := 3; day := 9; hour := 12; minute := 0; second := 6 |}.

(** The server answers with one document, then with another; [clock] is
    what the two runs read. *)
Definition w_change (clock : list datetime) : world :=
  {| files := ∅; dirs := ∅;
     network := [HttpResponse 200 (Some doc_ba); HttpResponse 200 (Some doc_b3)];
     clock := clock; faults := []; trace := [] |}.

Definition w_blank : world :=
  {| files := {[ last_hash_file := [SPACE; CR; LF; 9; LF] ]}; dirs := ∅;
     network := [HttpResponse 200 (Some doc_ba)];
     clock := [noon]; faults := []; trace := [] |}.

(** * Facts *)

(** ** The library calls on small inputs *)

Example dumps_compact_nested :
  json_dumps compact
    (JDict [(lit "b", JList [JInt 2; JNull; JList []; JFloat (lit "1.5"); JBool true]);
            (lit "a", JDict [])])
  = lit "{" ++ quoted "a" ++ lit ":{}," ++ quoted "b" ++ lit ":[2,null,[],1.5,true]}".
Proof. vm_compute. reflexivity. Qed.

Example dumps_pretty_nested :
  json_dumps pretty
    (JDict [(lit "b", JList [JInt (-2); JList []]); (lit "a", JDict [(lit "z", JNull)])])
  = lit "{" ++ [LF] ++ lit "  " ++ quoted "a" ++ lit ": {" ++ [LF]
      ++ lit "    " ++ quoted "z" ++ lit ": null" ++ [LF]
      ++ lit "  }," ++ [LF]
      ++ lit "  " ++ quoted "b" ++ lit ": [" ++ [LF]
      ++ lit "    -2," ++ [LF]
      ++ lit "    []" ++ [LF]
      ++ lit "  ]" ++ [LF] ++ lit "}".
Proof. vm_compute. reflexivity. Qed.

(** A line feed, a quote, an e with acute accent, the control 1, DEL. *)
Example encode_basestring_escapes :
  py_encode_basestring [10; 34; 233; 1; 127]
  = [DQUOTE] ++ lit "\n" ++ [BACKSLASH; DQUOTE; 233] ++ lit "\u0001" ++ [127; DQUOTE].
Proof. vm_compute. reflexivity. Qed.

(** U+00E9, U+20AC, U+1F600; a surrogate is refused. *)
Example encode_utf8_samples :
  encode_utf8 [233; 8364; 128512] = Ok [195; 169; 226; 130; 172; 240; 159; 152; 128]
  ∧ encode_utf8 [97; 56832] = Raise UnicodeEncodeError.
Proof. split; vm_compute; reflexivity. Qed.

Example sha256_abc :
  hexdigest (sha256 (lit "abc"))
  = lit "ba7816bf8f01cfea414140de5dae2223b00361a396177a9cb410ff61f20015ad".
Proof. vm_compute. reflexivity. Qed.

Example sha256_empty :
  hexdigest (sha256 [])
  = lit "e3b0c44298fc1c149afbf4c8996fb92427ae41e4649b934ca495991b7852b855".
Proof. vm_compute. reflexivity. Qed.

(** 56 bytes: the padding takes a second block. *)
Example sha256_two_blocks :
  hexdigest (sha256 (lit "abcdbcdecdefdefgefghfghighijhijkijkljklmklmnlmnomnopnopq"))
  = lit "248d6a61d20638b8e5c026930c3e6039a33ce45964ff2167f6ecedd419db06c1".
Proof. vm_compute. reflexivity. Qed.

Example strip_unicode :
  strip ([SPACE; 28; 133; 12288] ++ lit "ab c" ++ [160; LF; 31]) = lit "ab c".
Proof. vm_compute. reflexivity. Qed.

Example universal_newlines_sample :
  universal_newlines ([CR; LF] ++ lit "a" ++ [CR] ++ lit "b" ++ [LF; CR])
  = [LF] ++ lit "a" ++ [LF] ++ lit "b" ++ [LF; LF].
Proof. vm_compute. reflexivity. Qed.

Example strftime_noon : strftime noon = lit "20240309_120005".
Proof. vm_compute. reflexivity. Qed.

Example sorted_items_sample :
  sorted_items [(lit "b", 1%nat); (lit "ab", 2%nat); (lit "a", 3%nat); ([233], 4%nat)]
  = [(lit "a", 3%nat); (lit "ab", 2%nat); (lit "b", 1%nat); ([233], 4%nat)].
Proof. vm_compute. reflexivity. Qed.

(** ** The order on strings *)

Lemma str_ltb_irrefl a : str_ltb a a = false.
Proof.
  induction a as [|x a IH]; simpl; [done|].
  rewrite N.ltb_irrefl. done.
Qed.

Lemma str_ltb_asym a b : str_ltb a b = true → str_ltb b a = false.
Proof.
  revert b. induction a as [|x a IH]; intros [|y b]; simpl; try done.
  destruct (N.ltb_spec x y), (N.ltb_spec y x); try done; try lia.
  apply IH.
Qed.

Lemma str_ltb_trans a b c :
  str_ltb a b = true → str_ltb b c = true → str_ltb a c = true.
Proof.
  revert b c. induction a as [|x a IH]; intros [|y b] [|z c]; simpl; try done.
  destruct (N.ltb_spec x y), (N.ltb_spec y x), (N.ltb_spec y z),
    (N.ltb_spec z y), (N.ltb_spec x z), (N.ltb_spec z x);
    try done; try lia.
  apply IH.
Qed.

Lemma str_ltb_total a b :
  str_ltb a b = false → str_ltb b a = false → a = b.
Proof.
  revert b. induction a as [|x a IH]; intros [|y b]; simpl; try done.
  destruct (N.ltb_spec x y), (N.ltb_spec y x); try done.
  intros. f_equal; [lia|]. by apply IH.
Qed.

(** [a <= b], as [list.sort] sees it: not [b < a]. *)
Lemma str_le_trans a b c :
  str_ltb b a = false → str_ltb c b = false → str_ltb c a = false.
Proof.
  intros Hab Hbc. destruct (str_ltb c a) eqn:Hca; [|done].
  destruct (str_ltb a b) eqn:Hlt.
  - by rewrite (str_ltb_trans c a b) in Hbc.
  - rewrite (str_ltb_total a b) in Hca by done. congruence.
Qed.

(** ** Sorting the items of a dict *)

Section sorting.
Context {V : Type}.
Implicit Types (x y : pystr * V) (l : list (pystr * V)).

Lemma insert_item_perm x l : insert_item x l ≡ₚ x :: l.
Proof.
  induction l as [|y l IH]; simpl; [done|].
  destruct (str_ltb y.1 x.1); [|done].
  rewrite IH. apply Permutation_swap.
Qed.

Lemma sorted_items_perm l : sorted_items l ≡ₚ l.
Proof.
  induction l as [|x l IH]; simpl; [done|].
  by rewrite insert_item_perm, IH.
Qed.

Lemma insert_item_sorted x l :
  StronglySorted item_le l → StronglySorted item_le (insert_item x l).
Proof.
  induction 1 as [|y l Hl IH Hy]; simpl.
  - repeat constructor.
  - destruct (str_ltb y.1 x.1) eqn:Hyx.
    + constructor; [done|].
      rewrite insert_item_perm. constructor; [|done].
      by apply str_ltb_asym.
    + constructor; [by constructor|].
      constructor; [done|].
      eapply Forall_impl; [exact Hy|].
      intros z Hz. unfold item_le in *. by eapply str_le_trans.
Qed.

Lemma sorted_items_sorted l : StronglySorted item_le (sorted_items l).
Proof.
  induction l as [|x l IH]; simpl; [constructor|].
  by apply insert_item_sorted.
Qed.

(** Sorting forgets the order the items came in, the keys being distinct. *)
Lemma sorted_items_unique l1 l2 :
  l1 ≡ₚ l2 → NoDup l1.*1 → sorted_items l1 = sorted_items l2.
Proof.
  intros Hp Hnd.
  apply (StronglySorted_unique_strong item_le);
    [|apply sorted_items_sorted..|by rewrite !sorted_items_perm].
  intros x y Hx Hy Hxy Hyx.
  rewrite sorted_items_perm in Hx. rewrite sorted_items_perm, <-Hp in Hy.
  assert (x.1 = y.1) as Hk by (by apply str_ltb_total).
  apply list_elem_of_lookup in Hx as [i Hi], Hy as [j Hj].
  assert (i = j) as ->; [|congruence].
  eapply NoDup_lookup; [exact Hnd|..]; rewrite list_lookup_fmap.
  - by rewrite Hi.
  - by rewrite Hj, Hk.
Qed.
End sorting.

(** Sorting reads keys only: it commutes with any change of the values. *)
Lemma insert_item_encoded {V U} (f : V → U) (x : pystr * V) l :
  insert_item (x.1, f x.2) ((λ kv, (kv.1, f kv.2)) <$> l)
  = (λ kv, (kv.1, f kv.2)) <$> insert_item x l.
Proof.
  induction l as [|y l IH]; [done|].
  cbn [fmap list_fmap insert_item fst snd] in *.
  destruct (str_ltb y.1 x.1); [|done].
  cbn [list_fmap]. by rewrite IH.
Qed.

Lemma sorted_items_encoded {V U} (f : V → U) (l : list (pystr * V)) :
  sorted_items ((λ kv, (kv.1, f kv.2)) <$> l)
  = (λ kv, (kv.1, f kv.2)) <$> sorted_items l.
Proof.
  induction l as [|x l IH]; [done|].
  unfold sorted_items in *. cbn [fmap list_fmap foldr] in *.
  by rewrite IH, <-insert_item_encoded.
Qed.

(** ** The encoder and the order of keys *)

(** Induction on a JSON value, with the hypothesis for every element of a
    list and every value of a dict. *)
Lemma json_ind' (P : json → Prop) :
  P JNull → (∀ b, P (JBool b)) → (∀ n, P (JInt n)) → (∀ t, P (JFloat t)) →
  (∀ s, P (JStr s)) →
  (∀ l, Forall P l → P (JList l)) →
  (∀ items, Forall (λ kv, P kv.2) items → P (JDict items)) →
  ∀ o, P o.
Proof.
  intros Hnull Hbool Hint Hfloat Hstr Hlist Hdict.
  fix IH 1. intros [|b|n|t|s|l|items].
  - exact Hnull.
  - apply Hbool.
  - apply Hint.
  - apply Hfloat.
  - apply Hstr.
  - apply Hlist. induction l as [|o l IHl]; constructor; [apply IH|exact IHl].
  - apply Hdict.
    induction items as [|[k v] items IHl]; constructor; [apply IH|exact IHl].
Qed.

Lemma wf_json_list l :
  wf_json (JList l) = true ↔ Forall (λ o, wf_json o = true) l.
Proof.
  simpl. rewrite <-Is_true_true, forallb_True.
  apply Forall_proper; [|done]. intros o. apply Is_true_true.
Qed.

Lemma wf_json_dict items :
  wf_json (JDict items) = true
  ↔ NoDup items.*1 ∧ Forall (λ kv, wf_json kv.2 = true) items.
Proof.
  simpl. rewrite andb_true_iff, bool_decide_eq_true.
  rewrite <-(Is_true_true (forallb _ _)), forallb_True.
  apply and_iff_compat_l, Forall_proper; [|done]. intros o. apply Is_true_true.
Qed.

(** The encoder does not see the order of the keys. *)
Lemma iterencode_reorder e a :
  ∀ level b, wf_json a = true → reorder a b →
    iterencode e level a = iterencode e level b.
Proof.
  induction a as [|?|?|?|?|l1 IH|items1 IH] using json_ind';
    intros level o2 Hwf Hr; inversion Hr as [| | | | |? l2 Hl|? items items2 Hp Hi];
    subst; try done.
  - (* lists: element by element *)
    apply wf_json_list in Hwf.
    assert (iterencode e (S level) <$> l1 = iterencode e (S level) <$> l2) as Heq.
    { clear Hr. induction Hl as [|o1 o2 l1 l2 Ho Hl IHl]; [done|].
      inversion IH; inversion Hwf; subst. cbn [fmap list_fmap]. f_equal; auto. }
    destruct Hl; [done|]. cbn [iterencode]. by rewrite Heq.
  - (* dicts: the same items up to order, sorted the same way *)
    apply wf_json_dict in Hwf as [Hnd Hwf].
    rewrite Hp in IH, Hwf.
    set (enc := λ kv : pystr * json, (kv.1, iterencode e (S level) kv.2)).
    assert (enc <$> items = enc <$> items2) as Heq.
    { clear Hr Hp Hnd. induction Hi as [|[k1 v1] [k2 v2] l1 l2 [Hk Hv] Hl IHl]; [done|].
      inversion IH; inversion Hwf; simpl in *; subst.
      cbn [fmap list_fmap]. f_equal; [|by auto].
      unfold enc; simpl. f_equal. auto. }
    assert (sorted_items (enc <$> items1) = sorted_items (enc <$> items2)) as Hs.
    { rewrite <-Heq. apply sorted_items_unique; [by rewrite Hp|].
      rewrite <-list_fmap_compose.
      by erewrite (list_fmap_ext (fst ∘ enc) fst items1). }
    assert (items1 = [] ↔ items2 = []) as Hnil.
    { apply Permutation_length in Hp. apply Forall2_length in Hi.
      destruct items1, items2; simpl in *; try done; lia. }
    cbn [iterencode]. fold enc. rewrite Hs.
    destruct items1 as [|i1 r1], items2 as [|i2 r2]; [done| | |done].
    + by destruct Hnil as [Hn _]; specialize (Hn eq_refl).
    + by destruct Hnil as [_ Hn]; specialize (Hn eq_refl).
Qed.

(** ** What UTF-8 can encode *)

Lemma utf8_char_scalar c : is_Some (utf8_char c) ↔ scalar c = true.
Proof.
  unfold utf8_char, scalar, is_surrogate.
  destruct (N.ltb_spec c 128), (N.ltb_spec c 2048), (N.ltb_spec c 65536),
    (N.ltb_spec c 1114112), (N.leb_spec 55296 c), (N.leb_spec c 57343);
    simpl; try lia;
    first [ split; [done|by eauto] | split; [by intros []|done] ].
Qed.

Lemma encodable_Forall s : encodable s = true ↔ Forall (λ c, scalar c = true) s.
Proof.
  unfold encodable. rewrite <-Is_true_true, forallb_True.
  apply Forall_proper; [|done]. intros c. apply Is_true_true.
Qed.

Lemma utf8_bytes_encodable s : is_Some (utf8_bytes s) ↔ encodable s = true.
Proof.
  rewrite encodable_Forall. induction s as [|c s IH]; simpl.
  - split; [constructor|by eauto].
  - rewrite Forall_cons, <-IH, <-utf8_char_scalar.
    destruct (utf8_char c), (utf8_bytes s); split;
      try (by intros [[] []]); try (by intros []); eauto.
Qed.

Lemma encode_utf8_ok s : encodable s = true → ∃ b, encode_utf8 s = Ok b.
Proof.
  intros [b Hb]%utf8_bytes_encodable. exists b. unfold encode_utf8. by rewrite Hb.
Qed.

Lemma encode_utf8_refused s :
  encodable s = false → encode_utf8 s = Raise UnicodeEncodeError.
Proof.
  intros Hs. unfold encode_utf8. destruct (utf8_bytes s) eqn:Hb; [|done].
  assert (encodable s = true) by (apply utf8_bytes_encodable; eauto). congruence.
Qed.


Lemma scalar_low c : c < 55296 → scalar c = true.
Proof.
  intros. unfold scalar, is_surrogate.
  destruct (N.ltb_spec c 1114112), (N.leb_spec 55296 c); simpl; lia.
Qed.

Lemma ok_lit s : ok (lit s).
Proof.
  unfold lit. apply Forall_fmap, Forall_forall. intros a _. simpl.
  apply scalar_low. pose proof (N_ascii_bounded a). lia.
Qed.

Lemma hexchar_lower_hex d : d < 16 → lower_hex (hexchar d) = true.
Proof.
  intros. unfold hexchar, lower_hex.
  destruct (N.ltb_spec d 10);
    [destruct (N.leb_spec 48 (48 + d)), (N.leb_spec (48 + d) 57)
    |destruct (N.leb_spec 48 (87 + d)), (N.leb_spec (87 + d) 57),
       (N.leb_spec 97 (87 + d)), (N.leb_spec (87 + d) 102)]; simpl; lia.
Qed.

Lemma lower_hex_bounds c : lower_hex c = true → 48 ≤ c ≤ 102.
Proof.
  unfold lower_hex.
  destruct (N.leb_spec 48 c), (N.leb_spec c 57), (N.leb_spec 97 c),
    (N.leb_spec c 102); simpl; try done; lia.
Qed.

Lemma ok_escape_char c : ok (escape_char c) ↔ scalar c = true.
Proof.
  unfold escape_char, DQUOTE, BACKSLASH.
  destruct (N.eqb_spec c 34) as [->|?]; [by split; [|repeat constructor]|].
  destruct (N.eqb_spec c 92) as [->|?]; [by split; [|repeat constructor]|].
  destruct (N.eqb_spec c 8) as [->|?]; [by split; [|repeat constructor]|].
  destruct (N.eqb_spec c 12) as [->|?]; [by split; [|repeat constructor]|].
  destruct (N.eqb_spec c 10) as [->|?]; [by split; [|repeat constructor]|].
  destruct (N.eqb_spec c 13) as [->|?]; [by split; [|repeat constructor]|].
  destruct (N.eqb_spec c 9) as [->|?]; [by split; [|repeat constructor]|].
  destruct (N.ltb_spec c 32).
  - split; [intros _; apply scalar_low; lia|intros _].
    apply Forall_app; split; [apply ok_lit|].
    assert (c / 16 < 16) by (apply N.Div0.div_lt_upper_bound; lia).
    assert (c mod 16 < 16) by (apply N.mod_lt; lia).
    repeat constructor; apply scalar_low;
      (eapply N.le_lt_trans; [apply lower_hex_bounds, hexchar_lower_hex|]; [done|lia]).
  - split; [by inversion 1|by repeat constructor].
Qed.

Lemma ok_py_encode_basestring s : ok (py_encode_basestring s) ↔ ok s.
Proof.
  unfold py_encode_basestring.
  rewrite Forall_cons, Forall_app, Forall_concat, Forall_fmap.
  split.
  - intros (_ & Hs & _). eapply Forall_impl; [exact Hs|].
    intros c. apply ok_escape_char.
  - intros Hs. split_and!; [done| |by repeat constructor].
    eapply Forall_impl; [exact Hs|]. intros c. apply ok_escape_char.
Qed.

Lemma ok_join sep parts : ok sep → ok (join sep parts) ↔ Forall ok parts.
Proof.
  intros Hsep. induction parts as [|p [|q parts] IH].
  - simpl. split; constructor.
  - simpl. split; [by repeat constructor|by inversion 1].
  - change (join sep (p :: q :: parts)) with (p ++ sep ++ join sep (q :: parts)).
    rewrite !Forall_app, IH, (Forall_cons _ p).
    split; [by intros (? & _ & ?)|by intros [? ?]].
Qed.

Lemma ok_newline_indent e level : ok (newline_indent e level).
Proof.
  unfold newline_indent. destruct (indent e); [|constructor].
  constructor; [done|]. by apply Forall_replicate.
Qed.

Lemma json_encodable_list l :
  json_encodable (JList l) = true ↔ Forall (λ o, json_encodable o = true) l.
Proof.
  simpl. rewrite <-Is_true_true, forallb_True.
  apply Forall_proper; [|done]. intros o. apply Is_true_true.
Qed.

Lemma json_encodable_dict items :
  json_encodable (JDict items) = true
  ↔ Forall (λ kv, ok kv.1 ∧ json_encodable kv.2 = true) items.
Proof.
  simpl. rewrite <-Is_true_true, forallb_True.
  apply Forall_proper; [|done]. intros [k v]. simpl.
  by rewrite andb_True, !Is_true_true, encodable_Forall.
Qed.

(** The text of a value can be encoded exactly when its strings can. *)
Lemma ok_iterencode e o :
  ok (item_separator e) → ok (key_separator e) →
  ∀ level, ok (iterencode e level o) ↔ json_encodable o = true.
Proof.
  intros Hisep Hksep.
  induction o as [|[]|?|?|?|l IH|items IH] using json_ind'; intros level.
  - split; [done|intros _; apply ok_lit].
  - split; [done|intros _; apply ok_lit].
  - split; [done|intros _; apply ok_lit].
  - split; [done|intros _; apply ok_lit].
  - simpl. by rewrite encodable_Forall.
  - simpl. by rewrite ok_py_encode_basestring, encodable_Forall.
  - rewrite json_encodable_list.
    destruct l as [|o l]; [split; [constructor|intros _; apply ok_lit]|].
    cbn [iterencode]. set (l' := o :: l) in *.
    rewrite !Forall_app, ok_join, Forall_fmap
      by (apply Forall_app; split; [done|apply ok_newline_indent]).
    split.
    + intros (_ & _ & Hl & _). rewrite Forall_forall in IH, Hl.
      apply Forall_forall. intros x Hx. by apply (IH x Hx (S level)), Hl.
    + intros Hl. split_and!; try apply ok_lit; try apply ok_newline_indent.
      rewrite Forall_forall in IH, Hl.
      apply Forall_forall. intros x Hx. by apply (IH x Hx (S level)), Hl.
  - rewrite json_encodable_dict.
    destruct items as [|kv items]; [split; [constructor|intros _; apply ok_lit]|].
    cbn [iterencode]. set (l' := kv :: items) in *.
    rewrite !Forall_app, ok_join, Forall_fmap, sorted_items_perm, Forall_fmap
      by (apply Forall_app; split; [done|apply ok_newline_indent]).
    split.
    + intros (_ & _ & Hl & _). rewrite Forall_forall in IH, Hl.
      apply Forall_forall. intros x Hx. specialize (Hl x Hx). cbn -[py_encode_basestring iterencode] in Hl.
      rewrite !Forall_app, ok_py_encode_basestring in Hl.
      destruct Hl as (? & _ & ?). split; [done|]. by apply (IH x Hx (S level)).
    + intros Hl. split_and!; try apply ok_lit; try apply ok_newline_indent.
      rewrite Forall_forall in IH, Hl.
      apply Forall_forall. intros x Hx. destruct (Hl x Hx) as [? ?]. cbn -[py_encode_basestring iterencode].
      rewrite !Forall_app, ok_py_encode_basestring.
      split_and!; [done..|]. by apply (IH x Hx (S level)).
Qed.

(** ** [strip] and line ends *)

Lemma lstrip_blank ws s : blank ws → lstrip (ws ++ s) = lstrip s.
Proof. induction 1 as [|c ws Hc _ IH]; simpl; [done|by rewrite Hc]. Qed.

Lemma lstrip_split s : ∃ ws, blank ws ∧ s = ws ++ lstrip s.
Proof.
  induction s as [|c s (ws & Hws & IH)]; [by exists []|].
  simpl. destruct (isspace c) eqn:Hc; [|by exists []].
  exists (c :: ws). split; [by constructor|]. simpl. by f_equal.
Qed.

Lemma lstrip_length s : (length (lstrip s) ≤ length s)%nat.
Proof.
  destruct (lstrip_split s) as (ws & _ & Hs).
  rewrite Hs at 2. rewrite length_app. lia.
Qed.

Lemma lstrip_fixed s : lstrip s = s ↔ s = [] ∨ ∃ c t, s = c :: t ∧ isspace c = false.
Proof.
  destruct s as [|c t]; simpl; [by split; [left|]|].
  destruct (isspace c) eqn:Hc.
  - split; [|by intros [|(? & ? & [= <- <-] & ?)]; [done|congruence]].
    intros Heq. pose proof (lstrip_length t) as Hl.
    rewrite Heq in Hl. simpl in Hl. lia.
  - split; [right; by eauto|done].
Qed.

Lemma lstrip_idemp s : lstrip (lstrip s) = lstrip s.
Proof.
  induction s as [|c s IH]; [done|]. simpl.
  destruct (isspace c) eqn:Hc; [done|]. simpl. by rewrite Hc.
Qed.

Lemma rstrip_blank s ws : blank ws → rstrip (s ++ ws) = rstrip s.
Proof.
  intros Hws. unfold rstrip. rewrite rev_app_distr.
  rewrite lstrip_blank; [done|]. by apply Forall_rev.
Qed.

Lemma rstrip_split s : ∃ ws, blank ws ∧ s = rstrip s ++ ws.
Proof.
  destruct (lstrip_split (rev s)) as (ws & Hws & Hs).
  exists (rev ws). split; [by apply Forall_rev|].
  unfold rstrip. by rewrite <-rev_app_distr, <-Hs, rev_involutive.
Qed.

Lemma rstrip_length s : (length (rstrip s) ≤ length s)%nat.
Proof.
  unfold rstrip. rewrite length_rev.
  etrans; [apply lstrip_length|]. by rewrite length_rev.
Qed.

(** What [strip] takes away is whitespace, on both sides. *)
Lemma strip_split s : ∃ ws1 ws2, blank ws1 ∧ blank ws2 ∧ s = ws1 ++ strip s ++ ws2.
Proof.
  destruct (lstrip_split s) as (ws1 & H1 & Hs).
  destruct (rstrip_split (lstrip s)) as (ws2 & H2 & Hs').
  exists ws1, ws2. split_and!; [done..|]. unfold strip. by rewrite <-Hs', <-Hs.
Qed.

Lemma strip_fixed s : strip s = s ↔ lstrip s = s ∧ rstrip s = s.
Proof.
  split; [|by unfold strip; intros [-> ->]].
  intros Heq.
  assert (lstrip s = s) as Hl.
  { destruct (lstrip_split s) as ([|c ws] & _ & Hs); [done|].
    pose proof (rstrip_length (lstrip s)) as Hlen.
    unfold strip in Heq. rewrite Heq in Hlen.
    apply (f_equal length) in Hs. rewrite length_app in Hs. simpl in Hs. lia. }
  split; [done|]. unfold strip in Heq. by rewrite Hl in Heq.
Qed.

(** Nothing is left to take away. *)
Lemma strip_idemp s : strip (strip s) = strip s.
Proof.
  apply strip_fixed. split.
  - unfold strip. destruct (rstrip_split (lstrip s)) as (ws & Hws & Hs).
    apply lstrip_fixed.
    destruct (rstrip (lstrip s)) as [|c t] eqn:Hr; [by left|right].
    exists c, t. split; [done|].
    assert (lstrip (lstrip s) = lstrip s) as Hi by apply lstrip_idemp.
    rewrite Hs in Hi. simpl in Hi.
    destruct (isspace c) eqn:Hc; [|done].
    pose proof (lstrip_length (t ++ ws)) as Hlen. rewrite Hi in Hlen.
    simpl in Hlen. lia.
  - unfold strip, rstrip. rewrite rev_involutive, lstrip_idemp. done.
Qed.

(** Whitespace around a text that has none at its ends goes, all of it. *)
Lemma strip_padded ws1 h ws2 :
  blank ws1 → blank ws2 → strip h = h → strip (ws1 ++ h ++ ws2) = h.
Proof.
  intros H1 H2 [Hl Hr]%strip_fixed. unfold strip.
  rewrite lstrip_blank by done.
  apply lstrip_fixed in Hl as [->|(c & t & -> & Hc)].
  - simpl. destruct (lstrip_split ws2) as (ws & Hws & Hs).
    assert (lstrip ws2 = []) as ->; [|done].
    clear Hs. induction H2 as [|d ws2 Hd _ IH]; simpl; [done|by rewrite Hd].
  - simpl. rewrite Hc. change (c :: t ++ ws2) with ((c :: t) ++ ws2).
    by rewrite rstrip_blank.
Qed.

(** *** Universal newlines *)

Lemma universal_newlines_plain s : CR ∉ s → universal_newlines s = s.
Proof.
  induction s as [|c s IH]; [done|]. intros Hnot. simpl.
  destruct (N.eqb_spec c CR) as [->|_]; [by destruct Hnot; left|].
  f_equal. apply IH. intros ?. apply Hnot. by right.
Qed.

Lemma universal_newlines_app_plain h s :
  CR ∉ h → universal_newlines (h ++ s) = h ++ universal_newlines s.
Proof.
  induction h as [|c h IH]; [done|]. intros Hnot. simpl.
  destruct (N.eqb_spec c CR) as [->|_]; [by destruct Hnot; left|].
  f_equal. apply IH. intros ?. apply Hnot. by right.
Qed.

Lemma universal_newlines_app a b :
  head b ≠ Some LF →
  universal_newlines (a ++ b) = universal_newlines a ++ universal_newlines b.
Proof.
  intros Hb. remember (length a) as n eqn:Hn. revert a Hn.
  induction n as [n IH] using lt_wf_ind. intros [|c a] Hn; [done|].
  simpl in *. destruct (N.eqb_spec c CR) as [->|_].
  - simpl. f_equal. destruct a as [|d a]; simpl.
    + destruct b as [|d b]; [done|]. simpl.
      destruct (N.eqb_spec d LF) as [->|_]; [done|]. done.
    + destruct (N.eqb_spec d LF) as [->|_].
      * apply (IH (length a)); [simpl in Hn; lia|done].
      * apply (IH (length (d :: a)) ltac:(simpl in *; lia) (d :: a) eq_refl).
  - simpl. f_equal. apply (IH (length a)); [lia|done].
Qed.

Lemma universal_newlines_blank ws : blank ws → blank (universal_newlines ws).
Proof.
  remember (length ws) as n eqn:Hn. revert ws Hn.
  induction n as [n IH] using lt_wf_ind. intros [|c ws] Hn Hws; [done|].
  inversion Hws as [|?? Hc Hws']; subst. simpl.
  destruct (N.eqb_spec c CR) as [->|_].
  - constructor; [done|]. destruct ws as [|d ws]; [done|].
    inversion Hws'; subst.
    destruct (N.eqb_spec d LF) as [->|_].
    + apply (IH (length ws)); [simpl; lia|done..].
    + apply (IH (length (d :: ws))); [simpl; lia|done..].
  - constructor; [done|]. apply (IH (length ws)); [simpl; lia|done..].
Qed.

(** ** Fingerprints and [calculate_hash] *)

(** *** Fingerprints *)

Lemma hex8_lower_hex w : Forall (λ c, lower_hex c = true) (hex8 w).
Proof.
  unfold hex8. cbn [fmap list_fmap].
  repeat constructor; apply hexchar_lower_hex, N.mod_lt; lia.
Qed.

Lemma hexdigest_fingerprint r : fingerprint (hexdigest r).
Proof.
  split; [done|]. unfold hexdigest.
  rewrite !Forall_app. split_and!; apply hex8_lower_hex.
Qed.

Lemma lower_hex_not_space c : lower_hex c = true → isspace c = false.
Proof.
  intros [? ?]%lower_hex_bounds. unfold isspace.
  repeat match goal with
         | |- context [?a <=? ?b] => destruct (N.leb_spec a b); try lia
         | |- context [?a =? ?b] => destruct (N.eqb_spec a b); try lia
         end; done.
Qed.

Lemma lower_hex_scalar c : lower_hex c = true → scalar c = true.
Proof. intros [? ?]%lower_hex_bounds. apply scalar_low. lia. Qed.

Lemma strip_no_blank h : Forall (λ c, isspace c = false) h → strip h = h.
Proof.
  intros Hh. apply strip_fixed.
  assert (∀ s, Forall (λ c, isspace c = false) s → lstrip s = s) as Hl.
  { intros s Hs. destruct Hs as [|c s Hc _]; simpl; [done|by rewrite Hc]. }
  split; [by apply Hl|]. unfold rstrip.
  rewrite Hl by (by apply Forall_rev). apply rev_involutive.
Qed.

(** A fingerprint is plain text: no whitespace, no line end, no surrogate. *)
Lemma fingerprint_strip h : fingerprint h → strip h = h.
Proof.
  intros [_ Hh]. apply strip_no_blank.
  eapply Forall_impl; [exact Hh|]. apply lower_hex_not_space.
Qed.

Lemma fingerprint_no_cr h : fingerprint h → CR ∉ h.
Proof.
  intros [_ Hh] Hin. rewrite Forall_forall in Hh.
  by specialize (Hh _ Hin).
Qed.

Lemma fingerprint_encodable h : fingerprint h → encodable h = true.
Proof.
  intros [_ Hh]. apply encodable_Forall.
  eapply Forall_impl; [exact Hh|]. apply lower_hex_scalar.
Qed.

Lemma fingerprint_nonempty h : fingerprint h → h ≠ [].
Proof. by intros [Hl _] ->. Qed.

(** *** [calculate_hash] *)

Lemma json_dumps_encodable e data :
  encodable (item_separator e) = true → encodable (key_separator e) = true →
  encodable (json_dumps e data) = json_encodable data.
Proof.
  intros Hi%encodable_Forall Hk%encodable_Forall.
  apply eq_true_iff_eq. rewrite encodable_Forall. by apply ok_iterencode.
Qed.

Lemma calculate_hash_total data :
  json_encodable data = true → ∃ h, calculate_hash data = Ok h ∧ fingerprint h.
Proof.
  intros Hd. unfold calculate_hash.
  destruct (encode_utf8_ok (json_dumps compact data)) as [b ->].
  { by rewrite json_dumps_encodable. }
  eexists. split; [done|]. apply hexdigest_fingerprint.
Qed.

Lemma calculate_hash_refused data :
  json_encodable data = false → calculate_hash data = Raise UnicodeEncodeError.
Proof.
  intros Hd. unfold calculate_hash.
  rewrite encode_utf8_refused; [done|]. by rewrite json_dumps_encodable.
Qed.

Lemma calculate_hash_Ok data h :
  calculate_hash data = Ok h → json_encodable data = true ∧ fingerprint h.
Proof.
  intros Hh. destruct (json_encodable data) eqn:Hd.
  - destruct (calculate_hash_total data Hd) as (h' & Hh' & Hf).
    split; [done|]. congruence.
  - rewrite calculate_hash_refused in Hh; done.
Qed.

(** ** The steps of a run *)

Lemma bind_Ok {A B} (m : M A) (k : A → M B) w a w' :
  m w = (Ok a, w') → (m ≫= k) w = k a w'.
Proof. intros H. unfold mbind, M_bind. by rewrite H. Qed.

Lemma bind_Raise {A B} (m : M A) (k : A → M B) w e w' :
  m w = (Raise e, w') → (m ≫= k) w = (Raise e, w').
Proof. intros H. unfold mbind, M_bind. by rewrite H. Qed.

Lemma download_json_failing u w r rs :
  network w = r :: rs → failing r = true →
  ∃ e, download_json u w = (Raise e, emit (Requested u) (set_network rs w)).
Proof.
  intros Hn Hf. unfold download_json, requests_get, mbind, M_bind. rewrite Hn.
  destruct r as [what| |status body]; [by eauto..|].
  simpl in Hf. unfold raise_for_status, accepted, response_json in *.
  destruct ((400 <=? status) && (status <? 600)); simpl in *; [by eauto|].
  apply bool_decide_eq_true in Hf as ->. by eauto.
Qed.

Lemma download_json_accepted u w status data rs :
  network w = HttpResponse status (Some data) :: rs → accepted status = true →
  download_json u w = (Ok data, emit (Requested u) (set_network rs w)).
Proof.
  intros Hn Hf. unfold download_json, requests_get, mbind, M_bind. rewrite Hn.
  unfold raise_for_status, accepted in *.
  by destruct ((400 <=? status) && (status <? 600)).
Qed.

Lemma download_json_empty u w :
  network w = [] → ∃ e, download_json u w = (Raise e, emit (Requested u) w).
Proof.
  intros Hn. unfold download_json, requests_get, mbind, M_bind. rewrite Hn. eauto.
Qed.

Lemma snapshot_path_in_snapshots t : in_snapshots (snapshot_path t) = true.
Proof. done. Qed.

Lemma record_not_in_snapshots : in_snapshots last_hash_file = false.
Proof. done. Qed.

Lemma snapshot_path_not_record t : snapshot_path t ≠ last_hash_file.
Proof.
  intros H. pose proof (snapshot_path_in_snapshots t) as Hs.
  rewrite H in Hs. discriminate Hs.
Qed.

(** *** What each step leaves behind *)

Lemma read_last_hash_frame p w :
  ∀ r w', read_last_hash p w = (r, w') →
    files w' = files w ∧ dirs w' = dirs w ∧ trace w' = trace w
    ∧ network w' = network w ∧ clock w' = clock w
    ∧ (∀ e, r = Raise e → is_request_exception e = false).
Proof.
  intros r w'. unfold read_last_hash, path_exists, read_text, next_fault, raise,
    mbind, M_bind, mret, M_ret.
  destruct (bool_decide _); [|by intros [= <- <-]].
  destruct (default None (head (faults w)));
    [by intros [= <- <-]; split_and!; try done; intros ? [= <-]|].
  cbn [files set_faults].
  destruct (files w !! p); intros [= <- <-]; split_and!; try done.
  by intros ? [= <-].
Qed.

Local Ltac snap_done mk :=
  intros [= <- <-]; exists mk; cbn;
  rewrite ?app_nil_r, <-?app_assoc;
  split_and!; try done; try (by left); try (by right);
  try (apply lookup_insert_ne, snapshot_path_not_record).

Lemma save_snapshot_effect data w :
  ∀ r w', save_snapshot data snapshots_dir w = (r, w') →
    let t := default epoch (head (clock w)) in
    let text := json_dumps pretty data ++ [LF] in
    ∃ mk, (mk = [] ∨ mk = [MadeDir snapshots_dir])
      ∧ files w' !! last_hash_file = files w !! last_hash_file
      ∧ match r with
        | Ok _ =>
            trace w' = trace w ++ mk
              ++ [Wrote (snapshot_path t) text;
                  Printed (lit "Snapshot saved: " ++ snapshot_path t)]
            ∧ files w' = <[snapshot_path t := text]> (files w)
        | Raise e => trace w' = trace w ++ mk ∧ is_request_exception e = false
        end.
Proof.
  intros r w'. unfold save_snapshot, mkdir_exist_ok, write_file, datetime_now,
    next_fault, raise, print, update, mbind, M_bind, mret, M_ret.
  destruct (default None (head (faults w))); [snap_done (@nil event)|].
  cbn [dirs set_faults].
  destruct (bool_decide (snapshots_dir ∈ dirs w)) eqn:Hd.
  - cbn [clock faults set_faults set_clock head tail].
    destruct (default None (head (tail (faults w)))) as [[|k]|];
      [snap_done (@nil event)..|].
    cbn [dirs set_faults set_clock from_option].
    rewrite bool_decide_eq_true in Hd.
    rewrite bool_decide_false by (by intros []).
    destruct (encode_utf8 _) as [?|[]] eqn:He; snap_done (@nil event);
      unfold encode_utf8 in He; by destruct (utf8_bytes _).
  - cbn [clock faults set_faults set_clock set_dirs emit head tail].
    destruct (default None (head (tail (faults w)))) as [[|k]|];
      [snap_done [MadeDir snapshots_dir]..|].
    cbn [dirs set_faults set_clock set_dirs emit from_option].
    rewrite bool_decide_false by (intros Hn; apply Hn; set_solver).
    destruct (encode_utf8 _) as [?|[]] eqn:He; snap_done [MadeDir snapshots_dir];
      unfold encode_utf8 in He; by destruct (utf8_bytes _).
Qed.

Lemma save_hash_effect h w :
  ∀ r w', save_hash last_hash_file h w = (r, w') →
    (∀ p, p ≠ last_hash_file → files w' !! p = files w !! p)
    ∧ match r with
      | Ok _ =>
          trace w' = trace w ++ [Wrote last_hash_file (h ++ [LF])]
          ∧ files w' = <[last_hash_file := h ++ [LF]]> (files w)
      | Raise e => trace w' = trace w ∧ is_request_exception e = false
      end.
Proof.
  intros r w'. unfold save_hash, write_file, next_fault, raise, update,
    mbind, M_bind, mret, M_ret.
  destruct (default None (head (faults w))) as [[|k]|]; cbn.
  - by intros [= <- <-].
  - intros [= <- <-]. split; [|done]. intros p Hp. cbn. by apply lookup_insert_ne.
  - destruct (encode_utf8 _) as [?|[]] eqn:He; intros [= <- <-]; cbn;
      (split; [intros p Hp; by apply lookup_insert_ne|]); try done;
      unfold encode_utf8 in He; by destruct (utf8_bytes _).
Qed.

Lemma calculate_hash_Raise data e :
  calculate_hash data = Raise e → is_request_exception e = false.
Proof.
  unfold calculate_hash, encode_utf8.
  destruct (utf8_bytes _); [done|]. by intros [= <-].
Qed.

Lemma download_json_frame u w :
  ∀ r w', download_json u w = (r, w') →
    files w' = files w ∧ dirs w' = dirs w ∧ faults w' = faults w
    ∧ clock w' = clock w ∧ trace w' = trace w ++ [Requested u].
Proof.
  intros r w'. unfold download_json, requests_get, raise_for_status,
    response_json, raise, mbind, M_bind, mret, M_ret.
  destruct (network w) as [|[what| |status [data|]] rs];
    try (by intros [= <- <-]);
    destruct ((400 <=? status) && (status <? 600)); by intros [= <- <-].
Qed.

(** Every run of [main] ends in one of the six ways of [run]. *)
Lemma main_run w :
  ∃ evs, trace (main w).2 = trace w ++ evs ∧ run w (main w).1 (main w).2 evs.
Proof.
  unfold main, mbind, M_bind, print, update, try, lift.
  destruct (download_json url _) as [[data|e] w1] eqn:Hd;
    apply download_json_frame in Hd as (Hf1 & Hd1 & _ & _ & Ht1);
    cbn [files dirs trace emit] in Hf1, Hd1, Ht1.
  2:{ exists [downloading; Requested url; Printed (report e)].
      unfold report. destruct (is_request_exception e) eqn:He; cbn [fst snd trace files dirs emit];
        rewrite Ht1, <-!app_assoc; (split; [done|]);
        pose proof (run_aborted w e) as Hr; unfold report in Hr; rewrite He in Hr;
        by apply Hr. }
  destruct (calculate_hash data) as [h|e] eqn:Hh.
  2:{ exists [downloading; Requested url]. cbn [fst snd trace files dirs emit]. rewrite Ht1, <-!app_assoc.
      split; [done|]. apply run_raised_early; [|done..].
      by eapply calculate_hash_Raise. }
  destruct (read_last_hash last_hash_file w1) as [[last|e] w2] eqn:Hr;
    apply read_last_hash_frame in Hr as (Hf2 & Hd2 & Ht2 & _ & _ & He2).
  2:{ exists [downloading; Requested url]. cbn [fst snd trace files dirs emit]. rewrite Ht2, Ht1, <-!app_assoc.
      split; [done|]. apply run_raised_early; [by apply He2|congruence..]. }
  destruct (bool_decide (h ≠ last)) eqn:Hne.
  2:{ apply bool_decide_eq_false in Hne. apply dec_stable in Hne as <-.
      eexists. cbn [fst snd trace files dirs emit]. rewrite Ht2, Ht1, <-!app_assoc. split; [done|].
      apply run_unchanged; cbn [files dirs emit]; congruence. }
  apply bool_decide_eq_true in Hne.
  destruct (save_snapshot data snapshots_dir _) as [[[]|e] w3] eqn:Hs;
    apply save_snapshot_effect in Hs as (mk & Hmk & Hl3 & Hs);
    cbv zeta in Hs; cbn [files dirs trace clock emit] in Hl3, Hs.
  2:{ destruct Hs as [Ht3 He3]. eexists. cbn [fst snd trace files dirs emit]. rewrite Ht3, Ht2, Ht1, <-!app_assoc.
      split; [done|]. apply run_snapshot_raised; [done..|congruence]. }
  destruct Hs as [Ht3 Hf3].
  destruct (save_hash last_hash_file h w3) as [[[]|e] w4] eqn:Hw;
    apply save_hash_effect in Hw as (Hframe & Hw).
  - destruct Hw as [Ht4 Hf4]. eexists. cbn.
    rewrite Ht4, Ht3, Ht2, Ht1, <-!app_assoc. split; [done|].
    apply run_done; [done..|]. cbn [files emit]. by rewrite Hf4, Hf3, Hf2, Hf1.
  - destruct Hw as [Ht4 He4]. eexists. cbn.
    rewrite Ht4, Ht3, Ht2, Ht1, <-!app_assoc. split; [done|].
    apply run_record_raised; [done..|].
    rewrite Hframe by apply snapshot_path_not_record.
    rewrite Hf3. apply lookup_insert_eq.
Qed.

(** *** Runs in which no filesystem call fails *)

Lemma quiet_head (fs : list (option fault)) :
  Forall (λ f, f = None) fs → default None (head fs) = None.
Proof. by destruct 1. Qed.

Lemma quiet_tail (fs : list (option fault)) :
  Forall (λ f, f = None) fs → Forall (λ f, f = None) (tail fs).
Proof. destruct 1; [constructor|done]. Qed.

Lemma read_last_hash_absent w :
  record_absent w → read_last_hash last_hash_file w = (Ok [], w).
Proof.
  intros [Hf Hd]. unfold read_last_hash, path_exists, mbind, M_bind.
  rewrite bool_decide_false; [done|].
  rewrite Hf. by intros [[]|].
Qed.

Lemma read_last_hash_present p w text :
  files w !! p = Some text → default None (head (faults w)) = None →
  read_last_hash p w
  = (Ok (strip (universal_newlines text)), set_faults (tail (faults w)) w).
Proof.
  intros Hf Hc. unfold read_last_hash, path_exists, read_text, next_fault,
    mbind, M_bind, mret, M_ret.
  rewrite bool_decide_true by (left; by rewrite Hf).
  rewrite Hc. cbn [files set_faults]. by rewrite Hf.
Qed.

Lemma save_snapshot_calm data w :
  default None (head (faults w)) = None →
  default None (head (tail (faults w))) = None →
  json_encodable data = true →
  let t := default epoch (head (clock w)) in
  let text := json_dumps pretty data ++ [LF] in
  ∃ w' mk, save_snapshot data snapshots_dir w = (Ok (), w') ∧ made_dir mk
    ∧ trace w' = trace w ++ mk ++ snapshot_saved t text
    ∧ files w' = <[snapshot_path t := text]> (files w)
    ∧ dirs w' = {[snapshots_dir]} ∪ dirs w
    ∧ faults w' = tail (tail (faults w))
    ∧ clock w' = tail (clock w) ∧ network w' = network w.
Proof.
  intros H1 H2 Hd t text.
  assert (∃ b, encode_utf8 text = Ok b) as [b Hb].
  { apply encode_utf8_ok. unfold text, encodable. rewrite forallb_app.
    fold (encodable (json_dumps pretty data)).
    by rewrite json_dumps_encodable, Hd. }
  unfold save_snapshot, mkdir_exist_ok, write_file, datetime_now,
    next_fault, raise, print, update, mbind, M_bind, mret, M_ret.
  rewrite H1. cbn [dirs set_faults].
  destruct (bool_decide (snapshots_dir ∈ dirs w)) eqn:Hin.
  - cbn [clock faults set_faults set_clock head tail]. rewrite H2.
    cbn [dirs set_faults set_clock from_option].
    rewrite bool_decide_eq_true in Hin.
    rewrite bool_decide_false by (by intros []).
    fold t. fold (snapshot_path t). fold text. rewrite Hb.
    eexists _, []. split; [done|]. split; [by left|].
    cbn [trace files dirs faults clock network emit set_files set_faults set_clock set_dirs].
    split_and!; try done; [by rewrite <-?app_assoc|].
    symmetry. by apply subseteq_union_1_L, singleton_subseteq_l.
  - cbn [clock faults set_faults set_clock set_dirs emit head tail]. rewrite H2.
    cbn [dirs set_faults set_clock set_dirs emit from_option].
    rewrite bool_decide_false by (intros Hn; apply Hn; set_solver).
    fold t. fold (snapshot_path t). fold text. rewrite Hb.
    eexists _, [MadeDir snapshots_dir]. split; [done|]. split; [by right|].
    cbn [trace files dirs faults clock network emit set_files set_faults set_clock set_dirs].
    split_and!; try done. by rewrite <-!app_assoc.
Qed.

Lemma save_hash_calm p h w :
  default None (head (faults w)) = None → encodable h = true →
  ∃ w', save_hash p h w = (Ok (), w')
    ∧ trace w' = trace w ++ [Wrote p (h ++ [LF])]
    ∧ files w' = <[p := h ++ [LF]]> (files w)
    ∧ dirs w' = dirs w ∧ faults w' = tail (faults w)
    ∧ clock w' = clock w ∧ network w' = network w.
Proof.
  intros H1 Hh.
  assert (∃ b, encode_utf8 (h ++ [LF]) = Ok b) as [b Hb].
  { apply encode_utf8_ok. unfold encodable. rewrite forallb_app.
    fold (encodable h). by rewrite Hh. }
  unfold save_hash, write_file, next_fault, raise, update, mbind, M_bind.
  rewrite H1. cbn [from_option]. rewrite Hb. by eexists.
Qed.

(** The record the run finds differs from [h], or there is none. *)
Lemma main_changed w status data rs h :
  network w = HttpResponse status (Some data) :: rs → accepted status = true →
  calm w → calculate_hash data = Ok h →
  ∀ last,
    (record_absent w ∧ last = []
     ∨ ∃ text, files w !! last_hash_file = Some text
               ∧ last = strip (universal_newlines text)) →
    h ≠ last →
    let t := default epoch (head (clock w)) in
    let text := json_dumps pretty data ++ [LF] in
    ∃ w' mk, main w = (Ok (), w') ∧ made_dir mk
      ∧ trace w' = trace w ++ [downloading; Requested url] ++ comparing h last
          ++ [Printed (lit "Data has changed!")] ++ mk ++ snapshot_saved t text
          ++ [Wrote last_hash_file (h ++ [LF]);
              Printed (lit "Hash updated successfully")]
      ∧ files w' = <[last_hash_file := h ++ [LF]]> (<[snapshot_path t := text]> (files w))
      ∧ dirs w' = {[snapshots_dir]} ∪ dirs w
      ∧ network w' = rs ∧ clock w' = tail (clock w) ∧ calm w'.
Proof.
  intros Hn Hs Hc Hh last Hrec Hne t text.
  destruct (calculate_hash_Ok _ _ Hh) as [Hd Hfp].
  unfold main, mbind, M_bind, print, update, try, lift.
  rewrite (download_json_accepted _ _ status data rs) by done.
  rewrite Hh.
  set (w1 := emit (Requested url) _).
  assert (∃ w2, read_last_hash last_hash_file w1 = (Ok last, w2)
    ∧ trace w2 = trace w1 ∧ files w2 = files w ∧ dirs w2 = dirs w
    ∧ network w2 = rs ∧ clock w2 = clock w
    ∧ Forall (λ f, f = None) (faults w2)) as (w2 & -> & Ht2 & Hf2 & Hd2 & Hn2 & Hk2 & Hc2).
  { destruct Hrec as [[Ha ->]|(txt & Hf & ->)].
    - exists w1. by rewrite read_last_hash_absent.
    - exists (set_faults (tail (faults w1)) w1).
      rewrite (read_last_hash_present _ _ txt); [|done|by apply quiet_head].
      split_and!; try done. by apply quiet_tail. }
  rewrite bool_decide_true by done.
  set (w3 := emit (Printed (lit "Data has changed!")) _).
  destruct (save_snapshot_calm data w3) as (w4 & mk & -> & Hmk & Ht4 & Hf4 & Hd4 & Hc4 & Hk4 & Hn4).
  { by apply quiet_head. }
  { by apply quiet_head, quiet_tail. }
  { done. }
  destruct (save_hash_calm last_hash_file h w4) as (w5 & -> & Ht5 & Hf5 & Hd5 & Hc5 & Hk5 & Hn5).
  { rewrite Hc4. by apply quiet_head, quiet_tail, quiet_tail. }
  { by apply fingerprint_encodable. }
  exists (emit (Printed (lit "Hash updated successfully")) w5), mk.
  split; [done|]. split; [done|].
  cbn [trace files dirs network clock faults emit].
  rewrite Ht5, Ht4, Hf5, Hf4, Hd5, Hd4, Hn5, Hn4, Hk5, Hk4.
  subst w3. cbn [trace files dirs network clock faults emit].
  rewrite Ht2, Hf2, Hd2, Hn2, Hk2. subst w1.
  cbn [trace files dirs network clock faults emit set_network].
  split_and!; try done.
  - fold t. fold text. by rewrite <-!app_assoc.
  - unfold calm. cbn [faults emit]. rewrite Hc5, Hc4.
    by apply quiet_tail, quiet_tail, quiet_tail.
Qed.

(** The record the run finds is [h]. *)
Lemma main_unchanged w status data rs h text :
  network w = HttpResponse status (Some data) :: rs → accepted status = true →
  calm w → calculate_hash data = Ok h →
  files w !! last_hash_file = Some text → strip (universal_newlines text) = h →
  ∃ w', main w = (Ok (), w')
    ∧ trace w' = trace w ++ [downloading; Requested url] ++ comparing h h
        ++ [Printed (lit "No changes detected")]
    ∧ files w' = files w ∧ dirs w' = dirs w
    ∧ network w' = rs ∧ clock w' = clock w ∧ calm w'.
Proof.
  intros Hn Hs Hc Hh Hf Hl.
  unfold main, mbind, M_bind, print, update, try, lift.
  rewrite (download_json_accepted _ _ status data rs) by done.
  rewrite Hh.
  rewrite (read_last_hash_present _ _ text); [|done|by apply quiet_head].
  rewrite Hl, bool_decide_false by (by intros []).
  eexists. split; [done|].
  cbn [trace files dirs network clock faults emit set_network set_faults].
  split_and!; try done.
  - by rewrite <-!app_assoc.
  - by apply quiet_tail.
Qed.

(** * The properties of the specification *)

Lemma new_events_eq {A} (m : M A) w evs :
  trace (m w).2 = trace w ++ evs → new_events m w = evs.
Proof. intros H. unfold new_events. rewrite H. apply drop_app_length. Qed.

Lemma reorder_tour : reorder tour_1 tour_2.
Proof.
  eapply (reorder_dict _ [(lit "count", JInt 1); _]); [apply perm_swap|].
  repeat constructor; simpl.
  eapply (reorder_dict _ [(lit "sold", JBool true); _]); [apply perm_swap|].
  repeat constructor.
Qed.

(** C1. The fingerprint of a value is the same whenever and wherever it is
    computed ([calculate_hash] neither reads nor changes the world), and two
    documents that differ only in the order of the keys of their objects, at
    any depth, have the same canonical text and the same fingerprint. *)
Theorem calculate_hash_stable a b :
  wf_json a = true → reorder a b →
  (∀ w1 w2, (lift (calculate_hash a) w1).1 = (lift (calculate_hash a) w2).1
            ∧ (lift (calculate_hash a) w1).2 = w1)
  ∧ json_dumps compact a = json_dumps compact b
  ∧ calculate_hash a = calculate_hash b.
Proof.
  intros Hwf Hr. split; [done|].
  assert (json_dumps compact a = json_dumps compact b) as Heq
    by (by apply iterencode_reorder).
  split; [done|]. unfold calculate_hash. by rewrite Heq.
Qed.

Lemma calculate_hash_stable_witness :
  wf_json tour_1 = true ∧ reorder tour_1 tour_2
  ∧ tour_1 ≠ tour_2 ∧ calculate_hash tour_1 = calculate_hash tour_2.
Proof.
  split; [reflexivity|]. split; [exact reorder_tour|]. split; [discriminate|].
  apply (calculate_hash_stable tour_1 tour_2); [reflexivity|exact reorder_tour].
Defined.

(** *** Reading the events of a run *)

Lemma made_dir_writes mk :
  made_dir mk → snapshot_writes mk = [] ∧ record_writes mk = [].
Proof. by intros [-> | ->]. Qed.

Lemma snapshot_writes_app evs1 evs2 :
  snapshot_writes (evs1 ++ evs2) = snapshot_writes evs1 ++ snapshot_writes evs2.
Proof. apply omap_app. Qed.

Lemma record_writes_app evs1 evs2 :
  record_writes (evs1 ++ evs2) = record_writes evs1 ++ record_writes evs2.
Proof. apply omap_app. Qed.

Lemma snapshot_writes_saved t text :
  snapshot_writes (snapshot_saved t text) = [(snapshot_path t, text)].
Proof. done. Qed.

Lemma record_writes_saved t text : record_writes (snapshot_saved t text) = [].
Proof.
  unfold record_writes, snapshot_saved. cbn [omap list_omap].
  by rewrite bool_decide_false by apply snapshot_path_not_record.
Qed.

(** Going through a list of events by position: what is left is the
    positions that hold a write of the record. *)
Local Ltac scan_events i Hi :=
  do 12 (try (destruct i as [|i];
              [try discriminate Hi;
               try (let Hp := fresh in
                    injection Hi as Hp _; by destruct (snapshot_path_not_record _ Hp))
              |cbn [lookup list_lookup] in Hi]));
  try discriminate Hi.

(** C2. In every run, whatever fails: a write of the fingerprint record
    comes after a write of a snapshot in the same run, which is on disk at
    the end; a run that wrote no snapshot leaves the record as it was; and
    in the Persisting phase (lines 76 to 78) an exception of [save_snapshot]
    ends the run at once, the record untouched. *)
Theorem snapshot_before_fingerprint w :
  let evs := new_events main w in
  let w' := (main w).2 in
  (∀ i text, evs !! i = Some (Wrote last_hash_file text) →
     ∃ j p t, (j < i)%nat ∧ evs !! j = Some (Wrote p t)
       ∧ in_snapshots p = true ∧ files w' !! p = Some t)
  ∧ (snapshot_writes evs = [] →
       record_writes evs = []
       ∧ files w' !! last_hash_file = files w !! last_hash_file)
  ∧ (∀ data h e w1,
       save_snapshot data snapshots_dir w = (Raise e, w1) →
       (save_snapshot data snapshots_dir ;;
        save_hash last_hash_file h ;;
        print (lit "Hash updated successfully")) w = (Raise e, w1)
       ∧ files w1 !! last_hash_file = files w !! last_hash_file
       ∧ record_writes (drop (length (trace w)) (trace w1)) = []).
Proof.
  intros evs w'. destruct (main_run w) as (evs' & Ht & Hrun).
  assert (evs = evs') as -> by (by apply new_events_eq). fold w' in Hrun, Ht.
  split_and!.
  - intros i text Hi.
    destruct Hrun as [| | |????? Hne Hmk|??????? Hne Hmk|?????? Hne Hmk Hf];
      try destruct Hmk as [-> | ->];
      cbn [app comparing snapshot_saved] in Hi.
    1-7: by scan_events i Hi.
    + exists 5%nat, (snapshot_path t), text0.
      rewrite Hf, lookup_insert_ne, lookup_insert_eq
        by (intros Heq; by destruct (snapshot_path_not_record t)).
      scan_events i Hi. split_and!; [lia|done..].
    + exists 6%nat, (snapshot_path t), text0.
      rewrite Hf, lookup_insert_ne, lookup_insert_eq
        by (intros Heq; by destruct (snapshot_path_not_record t)).
      scan_events i Hi. split_and!; [lia|done..].
  - intros Hnone.
    destruct Hrun as [?? Hf| ??? Hf|?? Hf|????? Hne Hmk ? Hl|??????? Hne Hmk|?????? Hne Hmk Hf];
      try (split; [done|by rewrite Hf]).
    + split; [|done].
      rewrite !record_writes_app. by rewrite (proj2 (made_dir_writes mk Hmk)).
    + rewrite !snapshot_writes_app, snapshot_writes_saved in Hnone.
      by destruct (snapshot_writes mk).
    + rewrite !snapshot_writes_app, snapshot_writes_saved in Hnone.
      by destruct (snapshot_writes mk).
  - intros data h e w1 Hs. split; [by rewrite (bind_Raise _ _ _ _ _ Hs)|].
    apply save_snapshot_effect in Hs as (mk & Hmk & Hl & Ht' & _).
    split; [done|]. rewrite Ht', drop_app_length.
    apply (made_dir_writes mk Hmk).
Qed.

Lemma main_aborted w :
  fetch_fails w = true →
  ∃ e w', main w = (Ok (), w')
    ∧ files w' = files w ∧ dirs w' = dirs w
    ∧ trace w' = trace w ++ [downloading; Requested url; Printed (report e)].
Proof.
  intros Hf. unfold main, mbind, M_bind, print, update, try.
  set (w0 := emit _ w).
  assert (∃ e w1, download_json url w0 = (Raise e, w1)) as (e & w1 & Hd).
  { unfold fetch_fails in Hf. destruct (network w) as [|r rs] eqn:Hn.
    - destruct (download_json_empty url w0 Hn) as [e He]. eauto.
    - destruct (download_json_failing url w0 r rs Hn Hf) as [e He]. eauto. }
  rewrite Hd. apply download_json_frame in Hd as (Hf1 & Hd1 & _ & _ & Ht1).
  subst w0. cbn [files dirs trace emit] in Hf1, Hd1, Ht1.
  exists e. unfold report.
  destruct (is_request_exception e); eexists; (split; [done|]);
    cbn [files dirs trace emit]; rewrite Hf1, Hd1, Ht1;
    by rewrite <-!app_assoc.
Qed.

(** C3. When the fetch fails (no connection, a timeout, a status that
    [raise_for_status] refuses, a body that is not JSON), the run returns
    normally, the files and directories are what they were, and all it did
    is print the line that announces the download, send the request and
    print one line that reports the error. *)
Theorem fetch_failure_leaves_no_trace_on_disk w :
  fetch_fails w = true →
  ∃ e w', main w = (Ok (), w')
    ∧ files w' = files w ∧ dirs w' = dirs w
    ∧ new_events main w = [downloading; Requested url; Printed (report e)]
    ∧ snapshot_writes (new_events main w) = []
    ∧ record_writes (new_events main w) = [].
Proof.
  intros Hf. destruct (main_aborted w Hf) as (e & w' & Hm & Hfs & Hds & Ht).
  exists e, w'. split_and!; try done.
  all: rewrite (new_events_eq main w [downloading; Requested url; Printed (report e)]);
    by rewrite ?Hm.
Qed.

Lemma fetch_failure_leaves_no_trace_on_disk_witness :
  fetch_fails w_timeout = true
  ∧ ∃ e w', main w_timeout = (Ok (), w')
      ∧ files w' = files w_timeout ∧ dirs w' = dirs w_timeout
      ∧ new_events main w_timeout = [downloading; Requested url; Printed (report e)]
      ∧ snapshot_writes (new_events main w_timeout) = []
      ∧ record_writes (new_events main w_timeout) = [].
Proof.
  split; [reflexivity|].
  apply (fetch_failure_leaves_no_trace_on_disk w_timeout). reflexivity.
Defined.

(** *** The events of the two kinds of successful run *)

Lemma persisting_events h last mk t text :
  made_dir mk →
  let evs := [downloading; Requested url] ++ comparing h last
      ++ [Printed (lit "Data has changed!")] ++ mk ++ snapshot_saved t text
      ++ [Wrote last_hash_file (h ++ [LF]);
          Printed (lit "Hash updated successfully")] in
  snapshot_writes evs = [(snapshot_path t, text)]
  ∧ record_writes evs = [h ++ [LF]]
  ∧ Printed (lit "Data has changed!") ∈ evs.
Proof.
  intros Hmk evs. subst evs.
  rewrite !snapshot_writes_app, !record_writes_app.
  rewrite (proj1 (made_dir_writes mk Hmk)), (proj2 (made_dir_writes mk Hmk)).
  rewrite snapshot_writes_saved, record_writes_saved.
  split_and!; [done|done|]. set_solver.
Qed.

Lemma unchanged_events h :
  let evs := [downloading; Requested url] ++ comparing h h
      ++ [Printed (lit "No changes detected")] in
  snapshot_writes evs = [] ∧ record_writes evs = []
  ∧ last (printed evs) = Some (lit "No changes detected").
Proof. done. Qed.

(** What was written with a line feed after it reads back without. *)
Lemma read_back h :
  strip h = h → CR ∉ h → strip (universal_newlines (h ++ [LF])) = h.
Proof.
  intros Hs Hcr. rewrite universal_newlines_app_plain by done.
  apply (strip_padded [] h [LF]); [done|by repeat constructor|done].
Qed.

Lemma fingerprint_read_back h :
  fingerprint h → strip (universal_newlines (h ++ [LF])) = h.
Proof.
  intros Hh. apply read_back; [by apply fingerprint_strip|by apply fingerprint_no_cr].
Qed.

Lemma record_differs_last w h :
  fingerprint h → record_differs w h →
  ∃ last, h ≠ last
    ∧ (record_absent w ∧ last = []
       ∨ ∃ text, files w !! last_hash_file = Some text
                 ∧ last = strip (universal_newlines text)).
Proof.
  intros Hh [Ha|(text & Hf & Hne)].
  - exists []. split; [by apply fingerprint_nonempty|by left].
  - exists (strip (universal_newlines text)). split; [done|right; by eauto].
Qed.

(** C4. Two runs in a row on the same document, no filesystem call
    failing, the first one finding a record that is not the document's
    fingerprint (or none): both return normally; the first writes one
    snapshot and the record, the second writes neither, so the two together
    wrote exactly one snapshot; the record after the second run is the one
    the first run wrote, and no file changed in the second run. *)
Theorem second_run_is_idle w st1 st2 data rs h :
  network w = HttpResponse st1 (Some data) :: HttpResponse st2 (Some data) :: rs →
  accepted st1 = true → accepted st2 = true → calm w →
  calculate_hash data = Ok h → record_differs w h →
  let w1 := (main w).2 in
  let w2 := (main w1).2 in
  (main w).1 = Ok () ∧ (main w1).1 = Ok ()
  ∧ length (snapshot_writes (new_events main w)) = 1%nat
  ∧ snapshot_writes (new_events main w1) = []
  ∧ length (snapshot_writes (new_events (main ;; main) w)) = 1%nat
  ∧ record_writes (new_events main w) = [h ++ [LF]]
  ∧ record_writes (new_events main w1) = []
  ∧ files w1 !! last_hash_file = Some (h ++ [LF])
  ∧ files w2 = files w1.
Proof.
  intros Hn Hs1 Hs2 Hc Hh Hrec w1 w2.
  destruct (calculate_hash_Ok _ _ Hh) as [_ Hfp].
  destruct (record_differs_last w h Hfp Hrec) as (last & Hne & Hlast).
  destruct (main_changed w st1 data _ h Hn Hs1 Hc Hh last Hlast Hne)
    as (w1' & mk & Hm1 & Hmk & Ht1 & Hf1 & _ & Hn1 & _ & Hc1).
  assert (w1 = w1') as Hw1 by (unfold w1; by rewrite Hm1).
  assert (files w1' !! last_hash_file = Some (h ++ [LF])) as Hrecord
    by (rewrite Hf1; apply lookup_insert_eq).
  destruct (main_unchanged w1' st2 data rs h (h ++ [LF]) Hn1 Hs2 Hc1 Hh Hrecord
              (fingerprint_read_back h Hfp))
    as (w2' & Hm2 & Ht2 & Hf2 & _).
  assert (w2 = w2') as Hw2 by (unfold w2; by rewrite Hw1, Hm2).
  destruct (persisting_events h last mk (default epoch (head (clock w)))
              (json_dumps pretty data ++ [LF]) Hmk) as (Hsw & Hrw & _).
  destruct (unchanged_events h) as (Hsw2 & Hrw2 & _).
  rewrite Hw1, Hw2.
  rewrite (new_events_eq main w _ ltac:(rewrite Hm1; exact Ht1)).
  rewrite (new_events_eq main w1' _ ltac:(rewrite Hm2; exact Ht2)).
  assert ((main ;; main) w = (Ok (), w2')) as Hboth
    by (by rewrite (bind_Ok _ _ _ _ _ Hm1)).
  rewrite (new_events_eq (main ;; main) w
             (_ ++ _) ltac:(rewrite Hboth; cbn [snd]; rewrite Ht2, Ht1, <-app_assoc; done)).
  rewrite Hm1, Hm2. cbv zeta in Hsw, Hrw, Hsw2, Hrw2.
  split_and!; try done.
  - by rewrite Hsw.
  - by rewrite snapshot_writes_app, Hsw, Hsw2.
Qed.

Lemma w_first_calm : calm w_first.
Proof. constructor. Qed.

Lemma w_first_absent : record_absent w_first.
Proof. split; [reflexivity|]. apply not_elem_of_empty. Qed.

Lemma doc_ba_hash : calculate_hash doc_ba = Ok digest_ba.
Proof. vm_compute. reflexivity. Qed.

Lemma second_run_is_idle_witness :
  calculate_hash doc_ba = Ok digest_ba
  ∧ length (snapshot_writes (new_events (main ;; main) w_first)) = 1%nat
  ∧ files (main (main w_first).2).2 = files (main w_first).2.
Proof.
  split; [exact doc_ba_hash|].
  pose proof (second_run_is_idle w_first 200 200 doc_ba [] digest_ba
                eq_refl eq_refl eq_refl w_first_calm doc_ba_hash
                (or_introl w_first_absent)) as H.
  split; apply H.
Defined.

(** C5. On a first run (no record), with no filesystem call failing: the
    stored fingerprint reads as the empty string; the fingerprint of the
    fetched document is not empty, so the document counts as changed; the
    run returns normally having written exactly one snapshot, the document
    pretty-printed, and exactly one record, the fingerprint and a line
    feed. *)
Theorem first_run_persists w st data rs h :
  record_absent w →
  network w = HttpResponse st (Some data) :: rs → accepted st = true →
  calm w → calculate_hash data = Ok h →
  let t := default epoch (head (clock w)) in
  let text := json_dumps pretty data ++ [LF] in
  read_last_hash last_hash_file w = (Ok [], w)
  ∧ h ≠ []
  ∧ (main w).1 = Ok ()
  ∧ Printed (lit "Data has changed!") ∈ new_events main w
  ∧ snapshot_writes (new_events main w) = [(snapshot_path t, text)]
  ∧ record_writes (new_events main w) = [h ++ [LF]]
  ∧ files (main w).2
    = <[last_hash_file := h ++ [LF]]> (<[snapshot_path t := text]> (files w)).
Proof.
  intros Ha Hn Hs Hc Hh t text.
  destruct (calculate_hash_Ok _ _ Hh) as [_ Hfp].
  pose proof (fingerprint_nonempty h Hfp) as Hne.
  destruct (main_changed w st data rs h Hn Hs Hc Hh [] (or_introl (conj Ha eq_refl)) Hne)
    as (w' & mk & Hm & Hmk & Ht & Hf & _).
  destruct (persisting_events h [] mk t text Hmk) as (Hsw & Hrw & Hin).
  rewrite (new_events_eq main w _ ltac:(rewrite Hm; exact Ht)), Hm.
  split_and!; try done. by apply read_last_hash_absent.
Qed.

Lemma first_run_persists_witness :
  record_absent w_first ∧ calm w_first
  ∧ snapshot_writes (new_events main w_first) = [(snapshot_path noon, snapshot_ba)]
  ∧ record_writes (new_events main w_first) = [digest_ba ++ [LF]].
Proof.
  split; [exact w_first_absent|]. split; [exact w_first_calm|].
  pose proof (first_run_persists w_first 200 doc_ba _ digest_ba
                w_first_absent eq_refl eq_refl w_first_calm doc_ba_hash) as H.
  split; [|apply H].
  replace snapshot_ba with (json_dumps pretty doc_ba ++ [LF])
    by (vm_compute; reflexivity).
  apply H.
Defined.

(** C6. For the document [{"b":2,"a":1}]: the text that is hashed is
    [{"a":1,"b":2}], its fingerprint is the SHA-256 of these bytes in
    lowercase hexadecimal; one run that finds another record, or none, and
    meets no filesystem failure writes the snapshot file with exactly the
    bytes of [{\n  "a": 1,\n  "b": 2\n}\n] and leaves in [last_hash.txt] the
    fingerprint followed by a line feed. *)
Theorem example_run w st rs :
  network w = HttpResponse st (Some doc_ba) :: rs → accepted st = true →
  calm w → record_differs w digest_ba →
  let t := default epoch (head (clock w)) in
  let w' := (main w).2 in
  json_dumps compact doc_ba = canonical_ba
  ∧ encode_utf8 canonical_ba = Ok canonical_ba
  ∧ hexdigest (sha256 canonical_ba) = digest_ba
  ∧ calculate_hash doc_ba = Ok digest_ba
  ∧ (main w).1 = Ok ()
  ∧ snapshot_writes (new_events main w) = [(snapshot_path t, snapshot_ba)]
  ∧ files w' !! snapshot_path t = Some snapshot_ba
  ∧ encode_utf8 snapshot_ba = Ok snapshot_ba
  ∧ files w' !! last_hash_file = Some (digest_ba ++ [LF])
  ∧ encode_utf8 (digest_ba ++ [LF]) = Ok (digest_ba ++ [LF]).
Proof.
  intros Hn Hs Hc Hrec t w'.
  pose proof doc_ba_hash as Hh.
  assert (json_dumps pretty doc_ba ++ [LF] = snapshot_ba) as Hsn
    by (vm_compute; reflexivity).
  destruct (calculate_hash_Ok _ _ Hh) as [_ Hfp].
  destruct (record_differs_last w _ Hfp Hrec) as (last & Hne & Hlast).
  destruct (main_changed w st doc_ba rs _ Hn Hs Hc Hh last Hlast Hne)
    as (w1 & mk & Hm & Hmk & Ht & Hf & _).
  destruct (persisting_events digest_ba last mk t snapshot_ba Hmk) as (Hsw & _).
  rewrite Hsn in Ht, Hf.
  rewrite (new_events_eq main w _ ltac:(rewrite Hm; exact Ht)).
  subst w'. rewrite Hm. cbn [fst snd]. rewrite Hf.
  split_and!.
  - vm_compute. reflexivity.
  - vm_compute. reflexivity.
  - vm_compute. reflexivity.
  - exact Hh.
  - reflexivity.
  - exact Hsw.
  - rewrite lookup_insert_ne by (intros Heq; by destruct (snapshot_path_not_record t)).
    apply lookup_insert_eq.
  - vm_compute. reflexivity.
  - apply lookup_insert_eq.
  - vm_compute. reflexivity.
Qed.

Lemma example_run_witness :
  calm w_first ∧ record_differs w_first digest_ba
  ∧ files (main w_first).2 !! snapshot_path noon = Some snapshot_ba
  ∧ files (main w_first).2 !! last_hash_file = Some (digest_ba ++ [LF]).
Proof.
  split; [exact w_first_calm|]. split; [exact (or_introl w_first_absent)|].
  pose proof (example_run w_first 200 _ eq_refl eq_refl w_first_calm
                (or_introl w_first_absent)) as H.
  split; apply H.
Defined.

(** C7. Writing a fingerprint and reading it back gives the fingerprint:
    for every text [h] without whitespace at its ends, without carriage
    return and without surrogate (every fingerprint is one:
    [fingerprint_strip], [fingerprint_no_cr], [fingerprint_encodable]), with
    no filesystem call failing, [save_hash] leaves [h] and a line feed in
    the file and [read_last_hash] then returns [h]; and where there is no
    record, [read_last_hash] returns the empty string, whatever the
    filesystem would have answered. *)
Theorem fingerprint_store_round_trip w h :
  calm w → strip h = h → CR ∉ h → encodable h = true →
  (∃ w1 w2, save_hash last_hash_file h w = (Ok (), w1)
     ∧ files w1 !! last_hash_file = Some (h ++ [LF])
     ∧ read_last_hash last_hash_file w1 = (Ok h, w2))
  ∧ (∀ w0, record_absent w0 → read_last_hash last_hash_file w0 = (Ok [], w0)).
Proof.
  intros Hc Hs Hcr He. split; [|apply read_last_hash_absent].
  destruct (save_hash_calm last_hash_file h w (quiet_head _ Hc) He)
    as (w1 & Hw & _ & Hf & _ & Hfl & _).
  assert (files w1 !! last_hash_file = Some (h ++ [LF])) as Hrec
    by (rewrite Hf; apply lookup_insert_eq).
  exists w1, (set_faults (tail (faults w1)) w1). split_and!; [done..|].
  rewrite (read_last_hash_present _ _ (h ++ [LF]) Hrec)
    by (rewrite Hfl; by apply quiet_head, quiet_tail).
  by rewrite read_back.
Qed.

Lemma fingerprint_store_round_trip_witness :
  calm w_first ∧ strip digest_ba = digest_ba ∧ encodable digest_ba = true
  ∧ ∃ w1 w2, save_hash last_hash_file digest_ba w_first = (Ok (), w1)
      ∧ files w1 !! last_hash_file = Some (digest_ba ++ [LF])
      ∧ read_last_hash last_hash_file w1 = (Ok digest_ba, w2).
Proof.
  split; [exact w_first_calm|].
  split; [vm_compute; reflexivity|]. split; [vm_compute; reflexivity|].
  apply (fingerprint_store_round_trip w_first digest_ba);
    [exact w_first_calm|vm_compute; reflexivity| |vm_compute; reflexivity].
  apply fingerprint_no_cr, (proj2 (calculate_hash_Ok doc_ba digest_ba doc_ba_hash)).
Defined.

(** C8, as stated, fails: with the server answering and the write of the
    snapshot failing, [main] raises the [OSError], and the lines it printed
    say nothing of it. *)
Lemma io_error_escapes_main :
  (main w_disk_full).1 = Raise (OSError (snapshot_path noon))
  ∧ printed (new_events main w_disk_full)
    = [lit "Downloading data from " ++ url;
       lit "Current hash: " ++ digest_ba;
       lit "Last hash: ";
       lit "Data has changed!"].
Proof. split; vm_compute; reflexivity. Qed.

(** The first character of the lines of a run. *)
Lemma report_head e : head (report e) = Some 69 ∨ head (report e) = Some 85.
Proof. unfold report. destruct (is_request_exception e); [by left|by right]. Qed.

Lemma report_not_printed e evs :
  Forall (λ l, head l ≠ Some 69 ∧ head l ≠ Some 85) (printed evs) →
  report e ∉ printed evs.
Proof.
  intros Hall Hin. rewrite Forall_forall in Hall.
  destruct (Hall _ Hin) as [H1 H2]. by destruct (report_head e).
Qed.

(** [main] raises exactly what a step after the fetch raises. *)
Lemma main_raises_iff w e :
  (main w).1 = Raise e
  ↔ ∃ data w1, download_json url (emit downloading w) = (Ok data, w1)
      ∧ later_raise data w1 e.
Proof.
  unfold main, mbind, M_bind, print, update, try, lift, downloading.
  destruct (download_json url _) as [[data|e0] w1] eqn:Hd.
  2:{ split; [by destruct (is_request_exception e0)|by intros (? & ? & [=] & _)]. }
  split.
  - intros Hm. exists data, w1. split; [done|]. revert Hm.
    destruct (calculate_hash data) as [h|e1] eqn:Hh;
      [|intros [= ->]; by apply hash_raises].
    destruct (read_last_hash last_hash_file w1) as [[last|e1] w2] eqn:Hr;
      [|intros [= ->]; apply (read_raises _ _ _ h); [done|by rewrite Hr]].
    destruct (bool_decide (h ≠ last)) eqn:Hne; [|done].
    apply bool_decide_eq_true in Hne.
    destruct (save_snapshot data snapshots_dir _) as [[[]|e1] w3] eqn:Hs;
      [|intros [= ->]; apply (snapshot_raises _ _ _ h last w2); try done;
        unfold changed; by rewrite Hs].
    destruct (save_hash last_hash_file h w3) as [[[]|e1] w4] eqn:Hw; [done|].
    intros [= ->]. apply (record_raises _ _ _ h last w2 w3); try done.
    by rewrite Hw.
  - intros (data' & w1' & [= <- <-] & Hl).
    destruct Hl as [Hh|h Hh Hr|h last w2 Hh Hr Hne Hs|h last w2 w3 Hh Hr Hne Hs Hw];
      rewrite Hh; [done|..].
    + by destruct (read_last_hash last_hash_file w1) as [[last|e1] w2]; simplify_eq/=.
    + rewrite Hr, bool_decide_true by done. unfold changed in Hs.
      by destruct (save_snapshot data snapshots_dir _) as [[[]|e1] w3]; simplify_eq/=.
    + rewrite Hr, bool_decide_true by done. unfold changed in Hs. rewrite Hs.
      by destruct (save_hash last_hash_file h w3) as [[[]|e1] w4]; simplify_eq/=.
Qed.

(** C8, amended. An error of the fetch step is caught: the run returns
    normally and standard output gets one line for it, after the line that
    announces the download.  An error of a later step is not: whatever
    hashing, reading the record, writing the snapshot or writing the record
    raises (an [OSError] of the filesystem, an encoding error), [main]
    raises in its turn, having no handler for it, and no line reports it.
    These are the only exceptions [main] raises: none of them is of the
    fetch step. *)
Theorem fetch_errors_are_reported_later_ones_raised w :
  (fetch_fails w = true →
     ∃ e w', main w = (Ok (), w')
       ∧ printed (new_events main w)
         = [lit "Downloading data from " ++ url; report e])
  ∧ (∀ data w1 e,
       download_json url (emit downloading w) = (Ok data, w1) →
       later_raise data w1 e →
       (main w).1 = Raise e
       ∧ ∀ e', report e' ∉ printed (new_events main w))
  ∧ (∀ e, (main w).1 = Raise e →
       is_request_exception e = false
       ∧ fetch_fails w = false
       ∧ (∀ e', report e' ∉ printed (new_events main w))
       ∧ ∃ data w1, download_json url (emit downloading w) = (Ok data, w1)
           ∧ later_raise data w1 e).
Proof.
  assert (∀ e, (main w).1 = Raise e →
            is_request_exception e = false
            ∧ fetch_fails w = false
            ∧ ∀ e', report e' ∉ printed (new_events main w)) as Hraised.
  { intros e He. destruct (main_run w) as (evs & Ht & Hrun).
    rewrite (new_events_eq main w evs Ht). rewrite He in Hrun.
    split_and!.
    - by inversion Hrun.
    - destruct (fetch_fails w) eqn:Hf; [|done].
      destruct (main_aborted w Hf) as (? & ? & Hm & _). by rewrite Hm in He.
    - intros e'. apply report_not_printed.
      inversion Hrun as [|??? | |????? Hne Hmk|??????? Hne Hmk|]; subst;
        try destruct Hmk as [-> | ->]; by repeat constructor. }
  split_and!.
  - intros Hf. destruct (main_aborted w Hf) as (e & w' & Hm & _ & _ & Ht).
    exists e, w'. split; [done|].
    by rewrite (new_events_eq main w _ ltac:(rewrite Hm; exact Ht)).
  - intros data w1 e Hd Hl.
    assert ((main w).1 = Raise e) as He by (apply main_raises_iff; eauto).
    split; [done|]. by apply (Hraised e).
  - intros e He. destruct (Hraised e He) as (H1 & H2 & H3).
    split_and!; try done. by apply main_raises_iff.
Qed.

Lemma fetch_errors_are_reported_later_ones_raised_witness :
  (download_json url (emit downloading w_disk_full)).1 = Ok doc_ba
  ∧ later_raise doc_ba (download_json url (emit downloading w_disk_full)).2
      (OSError (snapshot_path noon))
  ∧ (main w_disk_full).1 = Raise (OSError (snapshot_path noon))
  ∧ fetch_fails w_timeout = true
  ∧ ∃ e w', main w_timeout = (Ok (), w')
      ∧ printed (new_events main w_timeout)
        = [lit "Downloading data from " ++ url; report e].
Proof.
  set (w1 := (download_json url (emit downloading w_disk_full)).2).
  assert (download_json url (emit downloading w_disk_full) = (Ok doc_ba, w1)) as Hd
    by (vm_compute; reflexivity).
  assert (later_raise doc_ba w1 (OSError (snapshot_path noon))) as Hl.
  { apply (snapshot_raises _ _ _ digest_ba [] w1);
      [exact doc_ba_hash|vm_compute; reflexivity|discriminate|vm_compute; reflexivity]. }
  split; [by rewrite Hd|]. split; [exact Hl|].
  split.
  - exact (proj1 (proj1 (proj2 (fetch_errors_are_reported_later_ones_raised w_disk_full))
                    doc_ba w1 _ Hd Hl)).
  - split; [vm_compute; reflexivity|].
    apply (proj1 (fetch_errors_are_reported_later_ones_raised w_timeout)).
    vm_compute; reflexivity.
Defined.

Lemma read_text_Ok p w s w1 :
  read_text p w = (Ok s, w1) →
  default None (head (faults w)) = None
  ∧ w1 = set_faults (tail (faults w)) w
  ∧ ∃ stored, files w !! p = Some stored ∧ s = universal_newlines stored.
Proof.
  unfold read_text, next_fault, raise, mbind, M_bind.
  destruct (default None (head (faults w))); [done|].
  cbn [files set_faults]. destruct (files w !! p) as [stored|]; [|done].
  intros [= <- <-]. by eauto.
Qed.

Lemma universal_newlines_padded ws1 h ws2 :
  blank ws1 → blank ws2 → fingerprint h →
  ∃ ws1' ws2', blank ws1' ∧ blank ws2'
    ∧ universal_newlines (ws1 ++ h ++ ws2) = ws1' ++ h ++ ws2'.
Proof.
  intros H1 H2 Hh. exists (universal_newlines ws1), (universal_newlines ws2).
  split_and!; [by apply universal_newlines_blank..|].
  rewrite universal_newlines_app.
  - by rewrite universal_newlines_app_plain by (by apply fingerprint_no_cr).
  - destruct Hh as [Hlen Hall]. destruct h as [|c h]; [done|].
    inversion Hall; subst. simpl. intros [= ->]. done.
Qed.

(** C9. Whatever text [s] the record file reads as (the text it holds,
    every line end read as a line feed: the very text it holds when that has
    no carriage return), [read_last_hash] returns [s] without the whitespace
    at its two ends: what is taken away is whitespace only, and what is
    returned neither starts nor ends with whitespace.  In particular, a file that holds a fingerprint with
    whitespace and blank lines around it reads as that fingerprint: a run
    that fetches a document with this fingerprint reports no change and
    writes nothing. *)
Theorem read_last_hash_strips w w1 s :
  read_text last_hash_file w = (Ok s, w1) →
  read_last_hash last_hash_file w = (Ok (strip s), w1)
  ∧ (∃ stored, files w !! last_hash_file = Some stored
       ∧ s = universal_newlines stored ∧ (CR ∉ stored → s = stored))
  ∧ (∃ ws1 ws2, blank ws1 ∧ blank ws2 ∧ s = ws1 ++ strip s ++ ws2)
  ∧ lstrip (strip s) = strip s ∧ rstrip (strip s) = strip s
  ∧ (∀ h ws1 ws2 st data rs,
       blank ws1 → blank ws2 →
       files w !! last_hash_file = Some (ws1 ++ h ++ ws2) →
       network w = HttpResponse st (Some data) :: rs → accepted st = true →
       calculate_hash data = Ok h →
       strip s = h
       ∧ (main w).1 = Ok () ∧ files (main w).2 = files w
       ∧ snapshot_writes (new_events main w) = []
       ∧ record_writes (new_events main w) = []
       ∧ last (printed (new_events main w)) = Some (lit "No changes detected")).
Proof.
  intros Hr. pose proof Hr as (Hq & -> & stored & Hf & ->)%read_text_Ok.
  split_and!.
  - by apply read_last_hash_present.
  - exists stored. split_and!; [done..|]. intros Hcr. by apply universal_newlines_plain.
  - apply strip_split.
  - apply (strip_fixed (strip _)), strip_idemp.
  - apply (strip_fixed (strip _)), strip_idemp.
  - intros h ws1 ws2 st data rs H1 H2 Hf' Hn Hs Hh.
    assert (stored = ws1 ++ h ++ ws2) as -> by congruence.
    destruct (calculate_hash_Ok _ _ Hh) as [_ Hfp].
    destruct (universal_newlines_padded ws1 h ws2 H1 H2 Hfp)
      as (ws1' & ws2' & H1' & H2' & Heq).
    assert (strip (universal_newlines (ws1 ++ h ++ ws2)) = h) as Hstrip.
    { rewrite Heq. apply strip_padded; [done..|]. by apply fingerprint_strip. }
    split; [done|].
    assert (∃ w', main w = (Ok (), w')
      ∧ trace w' = trace w ++ [downloading; Requested url] ++ comparing h h
          ++ [Printed (lit "No changes detected")]
      ∧ files w' = files w) as (w' & Hm & Ht & Hfs).
    { unfold main, mbind, M_bind, print, update, try, lift.
      rewrite (download_json_accepted _ _ st data rs) by done.
      rewrite Hh.
      rewrite (read_last_hash_present _ _ (ws1 ++ h ++ ws2)) by done.
      rewrite Hstrip, bool_decide_false by (by intros []).
      eexists. split; [done|]. cbn [trace files emit set_network set_faults].
      by rewrite <-!app_assoc. }
    rewrite (new_events_eq main w _ ltac:(rewrite Hm; exact Ht)), Hm.
    by split_and!.
Qed.

Lemma read_last_hash_strips_witness :
  ∃ w1 s, read_text last_hash_file w_padded = (Ok s, w1)
    ∧ read_last_hash last_hash_file w_padded = (Ok (strip s), w1)
    ∧ strip s = digest_ba
    ∧ files (main w_padded).2 = files w_padded.
Proof.
  eexists _, _. split; [vm_compute; reflexivity|].
  match goal with
  | |- read_last_hash _ _ = (Ok (strip ?s), ?w1) ∧ _ =>
      pose proof (read_last_hash_strips w_padded w1 s ltac:(vm_compute; reflexivity))
        as (H1 & _ & _ & _ & _ & H2)
  end.
  split; [exact H1|].
  specialize (H2 digest_ba [LF; SPACE] [SPACE; CR; LF; CR; 9] 200 doc_ba []
                ltac:(by repeat constructor) ltac:(by repeat constructor)
                eq_refl eq_refl eq_refl doc_ba_hash).
  split; apply H2.
Defined.

(** C10, as stated, fails: a lone surrogate is a string that JSON can
    carry, and [calculate_hash] raises on a document that holds one. *)
Lemma lone_surrogate_has_no_fingerprint :
  calculate_hash lone_surrogate = Raise UnicodeEncodeError
  ∧ ¬ ∃ h, calculate_hash lone_surrogate = Ok h.
Proof. split; [vm_compute; reflexivity|]. by intros [h Hh]. Qed.

(** C10, amended. For every value whose strings, keys included, hold no
    surrogate, [calculate_hash] returns 64 characters, each in [0-9a-f]: never
    the empty string, so never what an absent record reads as, and a first
    run that fetches the value goes on to the Persisting branch.  On the
    other values it raises [UnicodeEncodeError]. *)
Theorem calculate_hash_is_a_fingerprint data :
  json_encodable data = true →
  (∃ h, calculate_hash data = Ok h
     ∧ length h = 64%nat ∧ Forall (λ c, lower_hex c = true) h ∧ h ≠ []
     ∧ ∀ w st rs,
         record_absent w →
         network w = HttpResponse st (Some data) :: rs → accepted st = true →
         Printed (lit "Data has changed!") ∈ new_events main w)
  ∧ (∀ other, json_encodable other = false →
       calculate_hash other = Raise UnicodeEncodeError).
Proof.
  intros Hd. split; [|apply calculate_hash_refused].
  destruct (calculate_hash_total data Hd) as (h & Hh & Hfp).
  exists h. destruct Hfp as [Hlen Hall]. split_and!; try done.
  { by apply fingerprint_nonempty. }
  intros w st rs Ha Hn Hs.
  assert (∃ evs, trace (main w).2 = trace w ++ [downloading; Requested url]
            ++ comparing h [] ++ [Printed (lit "Data has changed!")] ++ evs)
    as [evs Ht].
  { unfold main, mbind, M_bind, print, update, try, lift.
    rewrite (download_json_accepted _ _ st data rs) by done.
    rewrite Hh. rewrite read_last_hash_absent by done.
    rewrite bool_decide_true by (by apply fingerprint_nonempty).
    destruct (save_snapshot data snapshots_dir _) as [[[]|e] w3] eqn:Hsnap;
      apply save_snapshot_effect in Hsnap as (mk & _ & _ & Hsnap);
      cbv zeta in Hsnap; cbn [trace emit set_network] in Hsnap.
    - destruct Hsnap as [Ht3 _].
      destruct (save_hash last_hash_file h w3) as [[[]|e] w4] eqn:Hw;
        apply save_hash_effect in Hw as (_ & Hw).
      + destruct Hw as [Ht4 _]. eexists. cbn [snd trace emit].
        rewrite Ht4, Ht3, <-!app_assoc. done.
      + destruct Hw as [Ht4 _]. eexists. cbn [snd trace emit].
        rewrite Ht4, Ht3, <-!app_assoc. done.
    - destruct Hsnap as [Ht3 _]. eexists. cbn [snd]. rewrite Ht3, <-!app_assoc.
      done. }
  rewrite (new_events_eq main w _ Ht). set_solver.
Qed.

Lemma calculate_hash_is_a_fingerprint_witness :
  json_encodable doc_ba = true
  ∧ ∃ h, calculate_hash doc_ba = Ok h ∧ length h = 64%nat.
Proof.
  split; [vm_compute; reflexivity|].
  destruct (calculate_hash_is_a_fingerprint doc_ba ltac:(vm_compute; reflexivity))
    as [(h & Hh & Hlen & _) _].
  exists h. by split.
Defined.

(** * Further properties of the code *)

(** *** What a run can and cannot touch *)

Lemma download_json_network u w r w' :
  download_json u w = (r, w') → network w' = tail (network w).
Proof.
  unfold download_json, requests_get, raise_for_status, response_json, raise,
    mbind, M_bind, mret, M_ret.
  destruct (network w) as [|[what| |status [data|]] rs] eqn:Hn;
    try (intros [= <- <-]; cbn [network emit set_network]; by rewrite ?Hn);
    destruct ((400 <=? status) && (status <? 600)); by intros [= <- <-].
Qed.

Lemma insert_keeps {A} (m : gmap pystr A) q x p :
  is_Some (m !! p) → is_Some (<[q := x]> m !! p).
Proof.
  intros Hp. destruct (decide (q = p)) as [->|Hne].
  - rewrite lookup_insert_eq. by eexists.
  - by rewrite lookup_insert_ne.
Qed.

Local Ltac frame_done :=
  cbv beta iota zeta; intros [= <- <-];
  cbn [files dirs network clock emit set_files set_faults set_clock set_dirs];
  split_and!; try done;
  try (intros ? ?; by apply lookup_insert_ne);
  try (intros ? ?; by apply insert_keeps);
  try apply union_subseteq_r.

Lemma save_snapshot_frame data w r w' :
  save_snapshot data snapshots_dir w = (r, w') →
  let t := default epoch (head (clock w)) in
  (∀ p, snapshot_path t ≠ p → files w' !! p = files w !! p)
  ∧ (∀ p, is_Some (files w !! p) → is_Some (files w' !! p))
  ∧ dirs w ⊆ dirs w' ∧ dirs w' ⊆ {[snapshots_dir]} ∪ dirs w
  ∧ network w' = network w.
Proof.
  unfold save_snapshot, mkdir_exist_ok, write_file, datetime_now,
    next_fault, raise, print, update, mbind, M_bind, mret, M_ret.
  destruct (default None (head (faults w))); [frame_done|].
  cbn [dirs set_faults].
  destruct (bool_decide (snapshots_dir ∈ dirs w)) eqn:Hd.
  - cbn [clock faults set_faults set_clock head tail].
    destruct (default None (head (tail (faults w)))) as [[|k]|];
      [frame_done..|].
    cbn [dirs set_faults set_clock from_option].
    destruct (bool_decide (snapshots_dir ∉ dirs w)); [frame_done|].
    destruct (encode_utf8 _); frame_done.
  - cbn [clock faults set_faults set_clock set_dirs emit head tail].
    destruct (default None (head (tail (faults w)))) as [[|k]|];
      [frame_done..|].
    cbn [dirs set_faults set_clock set_dirs emit from_option].
    rewrite bool_decide_false
      by (intros Hn; apply Hn, elem_of_union_l, elem_of_singleton_2; done).
    destruct (encode_utf8 _); frame_done.
Qed.

Lemma save_hash_frame p h w r w' :
  save_hash p h w = (r, w') →
  (∀ q, p ≠ q → files w' !! q = files w !! q)
  ∧ (∀ q, is_Some (files w !! q) → is_Some (files w' !! q))
  ∧ dirs w' = dirs w ∧ network w' = network w.
Proof.
  unfold save_hash, write_file, next_fault, raise, update, mbind, M_bind.
  destruct (default None (head (faults w))) as [[|k]|]; [frame_done..|].
  cbn [from_option]. destruct (encode_utf8 _); frame_done.
Qed.

(** X1. A run changes no file but the record and the snapshot of the
    moment, removes none, and makes no directory but [snapshots]. *)
Theorem main_is_confined w :
  let w' := (main w).2 in
  let t := default epoch (head (clock w)) in
  (∀ p, last_hash_file ≠ p → snapshot_path t ≠ p → files w' !! p = files w !! p)
  ∧ (∀ p, is_Some (files w !! p) → is_Some (files w' !! p))
  ∧ dirs w ⊆ dirs w' ∧ dirs w' ⊆ {[snapshots_dir]} ∪ dirs w.
Proof.
  unfold main, mbind, M_bind, print, update, try, lift.
  destruct (download_json url _) as [[data|e] w1] eqn:Hd;
    apply download_json_frame in Hd as (Hf1 & Hd1 & _ & Hc1 & _);
    cbn [files dirs clock emit] in Hf1, Hd1, Hc1.
  2:{ destruct (is_request_exception e); cbn [snd files dirs emit];
        rewrite Hf1, Hd1; split_and!; try done; apply union_subseteq_r. }
  destruct (calculate_hash data) as [h|e] eqn:Hh.
  2:{ cbn [snd]. rewrite Hf1, Hd1. split_and!; try done. apply union_subseteq_r. }
  destruct (read_last_hash last_hash_file w1) as [[last|e] w2] eqn:Hr;
    apply read_last_hash_frame in Hr as (Hf2 & Hd2 & _ & _ & Hc2 & _).
  2:{ cbn [snd]. rewrite Hf2, Hd2, Hf1, Hd1. split_and!; try done.
      apply union_subseteq_r. }
  destruct (bool_decide (h ≠ last)).
  2:{ cbn [snd files dirs emit]. rewrite Hf2, Hd2, Hf1, Hd1.
      split_and!; try done. apply union_subseteq_r. }
  destruct (save_snapshot data snapshots_dir _) as [[[]|e] w3] eqn:Hs;
    apply save_snapshot_frame in Hs as (Ho3 & Hk3 & Hs3 & Hb3 & _);
    cbv zeta in Ho3; cbn [files dirs clock emit] in Ho3, Hk3, Hs3, Hb3;
    rewrite Hc2, Hc1 in Ho3; rewrite Hf2, Hf1 in Ho3, Hk3;
    rewrite Hd2, Hd1 in Hs3, Hb3.
  2:{ cbn [snd]. split_and!; try done. intros p _ Hp. by apply Ho3. }
  destruct (save_hash last_hash_file h w3) as [[[]|e] w4] eqn:Hw;
    apply save_hash_frame in Hw as (Ho4 & Hk4 & Hd4 & _);
    cbn [snd files dirs emit]; rewrite Hd4; (split_and!; try done);
    try (intros p Hp1 Hp2; rewrite Ho4 by done; by apply Ho3);
    intros p Hp; by apply Hk4, Hk3.
Qed.

(** X2. Every run sends one request and takes one answer of the network,
    whatever comes of it: there is no retry, and no run without a fetch. *)
Theorem main_requests_once w :
  requested (new_events main w) = [url]
  ∧ network (main w).2 = tail (network w).
Proof.
  split.
  - destruct (main_run w) as (evs & Ht & Hrun).
    rewrite (new_events_eq main w evs Ht).
    destruct Hrun as [| | |????? _ Hmk|??????? _ Hmk|?????? _ Hmk];
      try destruct Hmk as [-> | ->]; done.
  - unfold main, mbind, M_bind, print, update, try, lift.
    destruct (download_json url _) as [[data|e] w1] eqn:Hd;
      apply download_json_network in Hd; cbn [network emit] in Hd.
    { destruct (calculate_hash data) as [h|e]; [|done].
      destruct (read_last_hash last_hash_file w1) as [[last|e] w2] eqn:Hr;
        apply read_last_hash_frame in Hr as (_ & _ & _ & Hn2 & _);
        [|cbn [snd]; by rewrite Hn2].
      destruct (bool_decide (h ≠ last)); [|cbn [snd network emit]; by rewrite Hn2].
      destruct (save_snapshot data snapshots_dir _) as [[[]|e] w3] eqn:Hs;
        apply save_snapshot_frame in Hs as (_ & _ & _ & _ & Hn3);
        cbn [network emit] in Hn3; [|cbn [snd]; by rewrite Hn3, Hn2].
      destruct (save_hash last_hash_file h w3) as [[[]|e] w4] eqn:Hw;
        apply save_hash_frame in Hw as (_ & _ & _ & Hn4);
        cbn [snd network emit]; by rewrite Hn4, Hn3, Hn2. }
    destruct (is_request_exception e); by cbn [snd network emit].
Qed.

(** Two lines that start differently are different lines. *)
Local Ltac other_line H :=
  first
    [ discriminate H
    | injection H as H; apply (f_equal head) in H;
      first
        [ vm_compute in H; discriminate H
        | match type of H with
          | context [report ?e] =>
              destruct (report_head e) as [He|He]; rewrite He in H;
              vm_compute in H; discriminate H
          end ] ].

Local Ltac find_line H :=
  rewrite ?elem_of_cons, ?elem_of_nil in H;
  repeat match type of H with
         | _ ∨ _ => destruct H as [H|H]; [try (exfalso; by other_line H)|]
         | False => destruct H
         end;
  try (exfalso; by other_line H).

(** X3. The lines a run prints are true.  When it says the hash was updated,
    it returned normally, having written one snapshot and then the record,
    and both are on disk; when it says no change was detected, it returned
    normally and wrote nothing; a path it says it saved a snapshot under
    holds a snapshot written in this run. *)
Theorem printed_lines_are_true w :
  let evs := new_events main w in
  let w' := (main w).2 in
  (Printed (lit "Hash updated successfully") ∈ evs →
     (main w).1 = Ok ()
     ∧ ∃ h t text,
         record_writes evs = [h ++ [LF]]
         ∧ files w' !! last_hash_file = Some (h ++ [LF])
         ∧ snapshot_writes evs = [(snapshot_path t, text)]
         ∧ files w' !! snapshot_path t = Some text)
  ∧ (Printed (lit "No changes detected") ∈ evs →
       (main w).1 = Ok () ∧ files w' = files w ∧ dirs w' = dirs w
       ∧ snapshot_writes evs = [] ∧ record_writes evs = [])
  ∧ (∀ p, Printed (lit "Snapshot saved: " ++ p) ∈ evs →
       ∃ text, (p, text) ∈ snapshot_writes evs ∧ files w' !! p = Some text).
Proof.
  intros evs w'. destruct (main_run w) as (evs' & Ht & Hrun).
  assert (evs = evs') as -> by (by apply new_events_eq). fold w' in Hrun, Ht.
  remember (main w).1 as r eqn:Hr. clear Hr.
  split_and!.
  - intros Hin.
    destruct Hrun as [| | |????? _ Hmk|??????? _ Hmk|h last mk t text ? _ Hmk Hf];
      try destruct Hmk as [-> | ->];
      unfold comparing, snapshot_saved in Hin; cbn [app] in Hin; find_line Hin.
    all: split; [done|]; exists h, t, text;
      rewrite Hf, lookup_insert_eq, lookup_insert_ne, lookup_insert_eq
        by (intros Heq; by destruct (snapshot_path_not_record t));
      split_and!; try done.
    all: cbn [app comparing snapshot_saved record_writes snapshot_writes omap list_omap];
      unfold downloading; cbn [omap list_omap];
      rewrite ?bool_decide_true by done;
      rewrite ?bool_decide_false by apply snapshot_path_not_record;
      rewrite ?snapshot_path_in_snapshots, ?record_not_in_snapshots; done.
  - intros Hin.
    destruct Hrun as [| | ?? Hf Hd|????? _ Hmk|??????? _ Hmk|?????? _ Hmk ?];
      try destruct Hmk as [-> | ->];
      unfold comparing, snapshot_saved in Hin; cbn [app] in Hin; find_line Hin.
    by split_and!.
  - intros p Hin.
    destruct Hrun as [| | |????? _ Hmk|h last e mk t text ? _ Hmk ? Hf
                     |h last mk t text ? _ Hmk Hf];
      try destruct Hmk as [-> | ->];
      unfold comparing, snapshot_saved in Hin; cbn [app] in Hin; find_line Hin.
    all: injection Hin as ->; exists text.
    all: split;
      [|first [done|rewrite Hf, lookup_insert_ne, lookup_insert_eq
                 by (intros Heq; by destruct (snapshot_path_not_record t)); done]].
    all: cbn [app comparing snapshot_saved snapshot_writes omap list_omap];
      unfold downloading; cbn [omap list_omap];
      rewrite ?snapshot_path_in_snapshots, ?record_not_in_snapshots;
      cbn [omap list_omap]; rewrite ?snapshot_path_in_snapshots;
      apply list_elem_of_here.
Qed.

Lemma blank_strip ws : blank ws → strip ws = [].
Proof.
  intros Hws. rewrite <-(app_nil_r ws). by apply (strip_padded ws [] []).
Qed.

(** Two runs, each finding a document whose fingerprint is not on record. *)
Lemma two_changes w st1 st2 a b rs ha hb :
  network w = HttpResponse st1 (Some a) :: HttpResponse st2 (Some b) :: rs →
  accepted st1 = true → accepted st2 = true → calm w →
  calculate_hash a = Ok ha → calculate_hash b = Ok hb → ha ≠ hb →
  record_differs w ha →
  let t1 := default epoch (head (clock w)) in
  let t2 := default epoch (head (tail (clock w))) in
  ∃ w2 evs, (main ;; main) w = (Ok (), w2) ∧ trace w2 = trace w ++ evs
    ∧ snapshot_writes evs
      = [(snapshot_path t1, json_dumps pretty a ++ [LF]);
         (snapshot_path t2, json_dumps pretty b ++ [LF])]
    ∧ record_writes evs = [ha ++ [LF]; hb ++ [LF]]
    ∧ files w2
      = <[last_hash_file := hb ++ [LF]]>
          (<[snapshot_path t2 := json_dumps pretty b ++ [LF]]>
             (<[last_hash_file := ha ++ [LF]]>
                (<[snapshot_path t1 := json_dumps pretty a ++ [LF]]> (files w)))).
Proof.
  intros Hn Hs1 Hs2 Hc Ha Hb Hne Hrec t1 t2.
  destruct (calculate_hash_Ok _ _ Ha) as [_ Hfa].
  destruct (calculate_hash_Ok _ _ Hb) as [_ Hfb].
  destruct (record_differs_last w ha Hfa Hrec) as (last & Hnl & Hlast).
  destruct (main_changed w st1 a _ ha Hn Hs1 Hc Ha last Hlast Hnl)
    as (w1 & mk1 & Hm1 & Hmk1 & Ht1 & Hf1 & _ & Hn1 & Hk1 & Hc1).
  assert (files w1 !! last_hash_file = Some (ha ++ [LF])) as Hrecord
    by (rewrite Hf1; apply lookup_insert_eq).
  destruct (main_changed w1 st2 b rs hb Hn1 Hs2 Hc1 Hb ha
              (or_intror (ex_intro _ (ha ++ [LF])
                 (conj Hrecord (eq_sym (fingerprint_read_back ha Hfa)))))
              (not_eq_sym Hne))
    as (w2 & mk2 & Hm2 & Hmk2 & Ht2 & Hf2 & _).
  rewrite Hk1 in Ht2, Hf2. fold t2 in Ht2, Hf2. cbv zeta in Ht1, Hf1. fold t1 in Ht1, Hf1.
  destruct (persisting_events ha last mk1 t1 (json_dumps pretty a ++ [LF]) Hmk1)
    as (Hsw1 & Hrw1 & _).
  destruct (persisting_events hb ha mk2 t2 (json_dumps pretty b ++ [LF]) Hmk2)
    as (Hsw2 & Hrw2 & _).
  cbv zeta in Hsw1, Hrw1, Hsw2, Hrw2.
  eexists w2, (_ ++ _). split_and!.
  - by rewrite (bind_Ok _ _ _ _ _ Hm1).
  - rewrite Ht2, Ht1, <-app_assoc. done.
  - by rewrite snapshot_writes_app, Hsw1, Hsw2.
  - by rewrite record_writes_app, Hrw1, Hrw2.
  - by rewrite Hf2, Hf1.
Qed.

Lemma doc_b3_hash : calculate_hash doc_b3 = Ok digest_b3.
Proof. vm_compute. reflexivity. Qed.

Lemma digests_differ : digest_ba ≠ digest_b3.
Proof. vm_compute. discriminate. Qed.

Lemma w_change_calm c : calm (w_change c).
Proof. constructor. Qed.

Lemma w_change_absent c : record_absent (w_change c).
Proof. split; [reflexivity|]. apply not_elem_of_empty. Qed.

(** X4. Change detection.  Two runs in a row, the server answering with a
    document [a] and then with a document [b] of another fingerprint, the
    record at the start not that of [a], no filesystem call failing: each
    run writes its snapshot and the record, the record ends as the
    fingerprint of [b], the snapshot of [b] is on disk, and so is that of [a]
    if the two were taken at moments that give different names. *)
Theorem change_is_detected w st1 st2 a b rs ha hb :
  network w = HttpResponse st1 (Some a) :: HttpResponse st2 (Some b) :: rs →
  accepted st1 = true → accepted st2 = true → calm w →
  calculate_hash a = Ok ha → calculate_hash b = Ok hb → ha ≠ hb →
  record_differs w ha →
  let t1 := default epoch (head (clock w)) in
  let t2 := default epoch (head (tail (clock w))) in
  let w2 := ((main ;; main) w).2 in
  ((main ;; main) w).1 = Ok ()
  ∧ snapshot_writes (new_events (main ;; main) w)
    = [(snapshot_path t1, json_dumps pretty a ++ [LF]);
       (snapshot_path t2, json_dumps pretty b ++ [LF])]
  ∧ record_writes (new_events (main ;; main) w) = [ha ++ [LF]; hb ++ [LF]]
  ∧ files w2 !! last_hash_file = Some (hb ++ [LF])
  ∧ files w2 !! snapshot_path t2 = Some (json_dumps pretty b ++ [LF])
  ∧ (snapshot_path t1 ≠ snapshot_path t2 →
     files w2 !! snapshot_path t1 = Some (json_dumps pretty a ++ [LF])).
Proof.
  intros Hn Hs1 Hs2 Hc Ha Hb Hne Hrec t1 t2 w2.
  destruct (two_changes w st1 st2 a b rs ha hb Hn Hs1 Hs2 Hc Ha Hb Hne Hrec)
    as (w2' & evs & Hm & Ht & Hsw & Hrw & Hf).
  rewrite (new_events_eq (main ;; main) w evs) by (by rewrite Hm).
  subst w2. rewrite Hm. cbn [fst snd]. rewrite Hf.
  split_and!; try done.
  - apply lookup_insert_eq.
  - rewrite lookup_insert_ne by (intros Heq; by destruct (snapshot_path_not_record t2)).
    apply lookup_insert_eq.
  - intros Hp.
    rewrite lookup_insert_ne by (intros Heq; by destruct (snapshot_path_not_record t1)).
    rewrite lookup_insert_ne by done.
    rewrite lookup_insert_ne by (intros Heq; by destruct (snapshot_path_not_record t1)).
    apply lookup_insert_eq.
Qed.

Lemma change_is_detected_witness :
  calm (w_change [noon; later]) ∧ record_differs (w_change [noon; later]) digest_ba
  ∧ digest_ba ≠ digest_b3
  ∧ files ((main ;; main) (w_change [noon; later])).2 !! last_hash_file
    = Some (digest_b3 ++ [LF]).
Proof.
  split; [apply w_change_calm|]. split; [left; apply w_change_absent|].
  split; [exact digests_differ|].
  apply (change_is_detected (w_change [noon; later]) 200 200 doc_ba doc_b3 []
           digest_ba digest_b3 eq_refl eq_refl eq_refl (w_change_calm _)
           doc_ba_hash doc_b3_hash digests_differ (or_introl (w_change_absent _))).
Defined.

(** X5. The name of a snapshot has the second in it and nothing finer.  Of
    two changes seen at the same second, the second snapshot takes the place
    of the first: after the two runs the store holds one new snapshot, that
    of the later document. *)
Theorem same_second_overwrites w st1 st2 a b rs ha hb :
  network w = HttpResponse st1 (Some a) :: HttpResponse st2 (Some b) :: rs →
  accepted st1 = true → accepted st2 = true → calm w →
  calculate_hash a = Ok ha → calculate_hash b = Ok hb → ha ≠ hb →
  record_differs w ha →
  head (tail (clock w)) = head (clock w) →
  let t := default epoch (head (clock w)) in
  length (snapshot_writes (new_events (main ;; main) w)) = 2%nat
  ∧ files ((main ;; main) w).2
    = <[last_hash_file := hb ++ [LF]]>
        (<[snapshot_path t := json_dumps pretty b ++ [LF]]> (files w)).
Proof.
  intros Hn Hs1 Hs2 Hc Ha Hb Hne Hrec Hsame t.
  destruct (two_changes w st1 st2 a b rs ha hb Hn Hs1 Hs2 Hc Ha Hb Hne Hrec)
    as (w2' & evs & Hm & Ht & Hsw & Hrw & Hf).
  rewrite (new_events_eq (main ;; main) w evs) by (by rewrite Hm).
  rewrite Hm, Hsw. cbn [snd]. split; [done|].
  rewrite Hf, Hsame. fold t.
  rewrite (insert_insert_ne _ (snapshot_path t) last_hash_file)
    by apply snapshot_path_not_record.
  by rewrite insert_insert_eq, insert_insert_eq.
Qed.

Lemma same_second_overwrites_witness :
  calm (w_change [noon; noon])
  ∧ json_dumps pretty doc_ba ≠ json_dumps pretty doc_b3
  ∧ files ((main ;; main) (w_change [noon; noon])).2
    = <[last_hash_file := digest_b3 ++ [LF]]>
        (<[snapshot_path noon := json_dumps pretty doc_b3 ++ [LF]]> ∅).
Proof.
  split; [apply w_change_calm|]. split; [vm_compute; discriminate|].
  apply (same_second_overwrites (w_change [noon; noon]) 200 200 doc_ba doc_b3 []
           digest_ba digest_b3 eq_refl eq_refl eq_refl (w_change_calm _)
           doc_ba_hash doc_b3_hash digests_differ (or_introl (w_change_absent _))
           eq_refl).
Defined.

(** X6. A record file that is empty, or holds whitespace only, counts as no
    record: it reads as the empty string, so with no filesystem call failing
    the run takes the fetched document for changed and writes its snapshot
    and the record. *)
Theorem blank_record_is_no_record w text st data rs h :
  files w !! last_hash_file = Some text → blank text →
  network w = HttpResponse st (Some data) :: rs → accepted st = true →
  calm w → calculate_hash data = Ok h →
  let t := default epoch (head (clock w)) in
  (read_last_hash last_hash_file w).1 = Ok []
  ∧ (main w).1 = Ok ()
  ∧ snapshot_writes (new_events main w)
    = [(snapshot_path t, json_dumps pretty data ++ [LF])]
  ∧ record_writes (new_events main w) = [h ++ [LF]]
  ∧ files (main w).2 !! last_hash_file = Some (h ++ [LF]).
Proof.
  intros Hf Hb Hn Hs Hc Hh t.
  assert (strip (universal_newlines text) = []) as Hstrip
    by (by apply blank_strip, universal_newlines_blank).
  destruct (calculate_hash_Ok _ _ Hh) as [_ Hfp].
  destruct (main_changed w st data rs h Hn Hs Hc Hh []
              (or_intror (ex_intro _ text (conj Hf (eq_sym Hstrip))))
              (fingerprint_nonempty h Hfp))
    as (w' & mk & Hm & Hmk & Ht & Hfs & _).
  destruct (persisting_events h [] mk t (json_dumps pretty data ++ [LF]) Hmk)
    as (Hsw & Hrw & _).
  rewrite (new_events_eq main w _ ltac:(rewrite Hm; exact Ht)), Hm.
  rewrite (read_last_hash_present _ _ text Hf (quiet_head _ Hc)), Hstrip.
  split_and!; try done. cbn [snd]. rewrite Hfs. apply lookup_insert_eq.
Qed.

Lemma blank_record_is_no_record_witness :
  calm w_blank
  ∧ files (main w_blank).2 !! last_hash_file = Some (digest_ba ++ [LF]).
Proof.
  split; [constructor|].
  apply (blank_record_is_no_record w_blank [SPACE; CR; LF; 9; LF] 200 doc_ba []
           digest_ba eq_refl ltac:(by repeat constructor) eq_refl eq_refl
           ltac:(constructor) doc_ba_hash).
Defined.

Lemma runs_S k w : runs (S k) w = (main ;; runs k) w.
Proof. done. Qed.

(** X7. Once the record is the fingerprint of the document, any number of
    further runs on that document, no filesystem call failing, return
    normally and change nothing on disk: nothing is written, each run only
    takes its answer from the network. *)
Theorem idle_runs n : ∀ w data h text,
  files w !! last_hash_file = Some text → strip (universal_newlines text) = h →
  calculate_hash data = Ok h → calm w →
  (n ≤ length (network w))%nat →
  Forall (λ r, ∃ st, r = HttpResponse st (Some data) ∧ accepted st = true)
         (take n (network w)) →
  (runs n w).1 = Ok ()
  ∧ files (runs n w).2 = files w ∧ dirs (runs n w).2 = dirs w
  ∧ network (runs n w).2 = drop n (network w)
  ∧ snapshot_writes (new_events (runs n) w) = []
  ∧ record_writes (new_events (runs n) w) = [].
Proof.
  induction n as [|n IH]; intros w data h text Hf Hs Hh Hc Hlen Hall.
  { unfold new_events. cbn. by rewrite drop_all. }
  destruct (network w) as [|r rs] eqn:Hn; [simpl in Hlen; lia|].
  cbn [take] in Hall. apply Forall_cons in Hall as [(st & -> & Hst) Hall].
  destruct (main_unchanged w st data rs h text Hn Hst Hc Hh Hf Hs)
    as (w1 & Hm & Ht1 & Hf1 & Hd1 & Hn1 & _ & Hc1).
  destruct (IH w1 data h text) as (Hr & Hf2 & Hd2 & Hn2 & Hsw & Hrw).
  { by rewrite Hf1. } { done. } { done. } { done. }
  { rewrite Hn1. simpl in Hlen. lia. } { by rewrite Hn1. }
  assert (runs (S n) w = runs n w1) as Heq
    by (rewrite runs_S; by rewrite (bind_Ok _ _ _ _ _ Hm)).
  destruct (unchanged_events h) as (Hsw1 & Hrw1 & _). cbv zeta in Hsw1, Hrw1.
  assert (new_events (runs (S n)) w
          = ([downloading; Requested url] ++ comparing h h
               ++ [Printed (lit "No changes detected")]) ++ new_events (runs n) w1)
    as Hev.
  { unfold new_events. rewrite Heq.
    assert (∃ evs, trace (runs n w1).2 = trace w1 ++ evs) as [evs Hev].
    { clear. revert w1. induction n as [|n IHn]; intros w1; [exists []; cbn; by rewrite app_nil_r|].
      rewrite runs_S. unfold mbind, M_bind.
      destruct (main_run w1) as (e1 & Ht & _).
      destruct (main w1) as [[[]|e] w2]; cbn [snd] in *; [|by eauto].
      destruct (IHn w2) as [e2 He2]. exists (e1 ++ e2).
      by rewrite He2, Ht, app_assoc. }
    rewrite Hev, drop_app_length, Ht1, <-app_assoc.
    by rewrite drop_app_length. }
  rewrite Hev, snapshot_writes_app, record_writes_app, Hsw, Hrw, Hsw1, Hrw1, Heq.
  rewrite Hr, Hf2, Hd2, Hn2, Hf1, Hd1, Hn1. done.
Qed.

Lemma idle_runs_witness :
  files (runs 2 (main w_first).2).2 = files (main w_first).2
  ∧ snapshot_writes (new_events (runs 1) (main w_first).2) = [].
Proof.
  pose proof (idle_runs 1 (main w_first).2 doc_ba digest_ba (digest_ba ++ [LF])
                ltac:(vm_compute; reflexivity) ltac:(vm_compute; reflexivity)
                doc_ba_hash ltac:(constructor) ltac:(vm_compute; lia)
                ltac:(vm_compute; repeat constructor; by exists 200)) as H.
  split; [vm_compute; reflexivity|apply H].
Defined.

(** X8. [download_json] returns a document exactly when the next answer of
    the network is a response with a status outside 400..599 and a JSON
    body, and then it returns that body; the status is looked at before the
    body, so a refused status raises whatever the body is; and whatever it
    raises is a fetch error that the first handler of [main] takes, with
    the filesystem untouched. *)
Theorem download_json_returns_iff u w :
  (∀ data w',
     download_json u w = (Ok data, w')
     ↔ ∃ st rs, network w = HttpResponse st (Some data) :: rs
         ∧ accepted st = true ∧ w' = emit (Requested u) (set_network rs w))
  ∧ (∀ st body rs,
       network w = HttpResponse st body :: rs → accepted st = false →
       (download_json u w).1 = Raise (RequestException (lit "HTTP error")))
  ∧ (∀ e w',
       download_json u w = (Raise e, w') →
       is_request_exception e = true
       ∧ files w' = files w ∧ dirs w' = dirs w ∧ faults w' = faults w).
Proof.
  split_and!.
  - intros data w'. split.
    + unfold download_json, requests_get, raise_for_status, response_json, raise,
        accepted, mbind, M_bind, mret, M_ret.
      destruct (network w) as [|[what| |st body] rs]; [done..|].
      destruct ((400 <=? st) && (st <? 600)) eqn:Hst; [done|].
      destruct body as [d|]; [|done].
      intros [= <- <-]. exists st, rs. by rewrite Hst.
    + intros (st & rs & Hn & Hs & ->). by apply (download_json_accepted _ _ st).
  - intros st body rs Hn Hs.
    unfold download_json, requests_get, raise_for_status, raise, accepted,
      mbind, M_bind in *.
    rewrite Hn. by destruct ((400 <=? st) && (st <? 600)).
  - intros e w' Hd. pose proof Hd as (Hf & Hdirs & Hfl & _)%download_json_frame.
    split_and!; try done. revert Hd.
    unfold download_json, requests_get, raise_for_status, response_json, raise,
      mbind, M_bind, mret, M_ret.
    destruct (network w) as [|[what| |st body] rs]; [by intros [= <- <-]..|].
    destruct ((400 <=? st) && (st <? 600)); [by intros [= <- <-]|].
    destruct body; [done|by intros [= <- <-]].
Qed.

(** X9. [sorted(dct.items())] as the encoder uses it: the items come out in
    ascending order of their keys, none lost, none added; in strictly
    ascending order when the keys are pairwise distinct, as those of a dict
    are. *)
Theorem sorted_items_sorts {V} (l : list (pystr * V)) :
  sorted_items l ≡ₚ l
  ∧ StronglySorted item_le (sorted_items l)
  ∧ (NoDup l.*1 →
     StronglySorted (λ x y, str_ltb x.1 y.1 = true) (sorted_items l)).
Proof.
  split; [apply sorted_items_perm|]. split; [apply sorted_items_sorted|].
  intros Hnd.
  assert (NoDup (sorted_items l).*1) as Hnd'
    by (by rewrite (fmap_Permutation fst _ _ (sorted_items_perm l))).
  pose proof (sorted_items_sorted l) as Hs.
  induction Hs as [|x l' Hl' IH Hx]; [constructor|].
  cbn [fmap list_fmap] in Hnd'. apply NoDup_cons in Hnd' as [Hnot Hnd'].
  constructor; [by apply IH|].
  rewrite Forall_forall in Hx |- *. intros y Hy. specialize (Hx y Hy).
  destruct (str_ltb x.1 y.1) eqn:Hlt; [done|].
  destruct Hnot. rewrite (str_ltb_total x.1 y.1 Hlt Hx).
  by apply list_elem_of_fmap_2.
Qed.

(** X10. What [save_hash] does to the record, in every world.  When it
    returns, the file holds the value and a line feed, whatever it held
    before: the last write wins, nothing is kept of the old value.  It
    touches no other file and no directory.  A value that UTF-8 cannot
    encode raises once the file is open: the record is left empty, the old
    value lost. *)
Theorem save_hash_overwrites p h w :
  let r := (save_hash p h w).1 in
  let w' := (save_hash p h w).2 in
  (r = Ok () → files w' !! p = Some (h ++ [LF]) ∧ encodable h = true)
  ∧ (∀ q, p ≠ q → files w' !! q = files w !! q)
  ∧ dirs w' = dirs w
  ∧ (r = Raise UnicodeEncodeError → files w' !! p = Some [])
  ∧ (encodable h = false → default None (head (faults w)) = None →
     r = Raise UnicodeEncodeError).
Proof.
  intros r w'. subst r w'.
  assert (encodable (h ++ [LF]) = encodable h) as Henc.
  { unfold encodable. rewrite forallb_app. cbn. by rewrite !andb_true_r. }
  destruct (save_hash p h w) as [r w'] eqn:Hs. cbn [fst snd].
  pose proof (save_hash_frame p h w r w' Hs) as (Ho & _ & Hd & _).
  split_and!; try done; revert Hs;
    unfold save_hash, write_file, next_fault, raise, update, mbind, M_bind.
  - destruct (default None (head (faults w))) as [[|k]|]; [by intros [= <- <-] [=]..|].
    cbn [from_option]. destruct (encode_utf8 (h ++ [LF])) as [b|e] eqn:He.
    + intros [= <- <-] _. cbn. rewrite lookup_insert_eq. split; [done|].
      rewrite <-Henc. apply utf8_bytes_encodable. unfold encode_utf8 in He.
      destruct (utf8_bytes (h ++ [LF])); [by eauto|done].
    + by intros [= <- <-] [=].
  - destruct (default None (head (faults w))) as [[|k]|]; [by intros [= <- <-] [=]..|].
    cbn [from_option]. destruct (encode_utf8 (h ++ [LF])) as [b|e] eqn:He.
    + by intros [= <- <-] [=].
    + intros [= <- <-] _. cbn. apply lookup_insert_eq.
  - intros Hs Hh Hq. revert Hs. rewrite Hq. cbn [from_option].
    rewrite encode_utf8_refused by (by rewrite Henc). by intros [= <- <-].
Qed.

Lemma all_bits_spec d p : ∀ base,
  all_bits d base p = true →
  ∀ c, base * 2 ^ N.of_nat d ≤ c < (base + 1) * 2 ^ N.of_nat d → p c = true.
Proof.
  induction d as [|d IH]; intros base Hall c Hc.
  - simpl in *. assert (c = base) as -> by lia. done.
  - cbn [all_bits] in Hall. apply andb_true_iff in Hall as [H0 H1].
    rewrite Nat2N.inj_succ, N.pow_succ_r' in Hc.
    destruct (N.lt_ge_cases c ((2 * base + 1) * 2 ^ N.of_nat d)).
    + apply (IH _ H0). lia.
    + apply (IH _ H1). lia.
Qed.

Lemma all_below d p bound :
  all_bits d 0 (λ c, (bound <=? c) || p c) = true → bound ≤ 2 ^ N.of_nat d →
  ∀ c, c < bound → p c = true.
Proof.
  intros Hall Hb c Hc.
  pose proof (all_bits_spec d _ 0 Hall c ltac:(lia)) as H.
  apply orb_true_iff in H as [H|H]; [|done].
  apply N.leb_le in H. lia.
Qed.

Lemma zero_padded_2 n :
  n < 100 → zero_padded 2 n = [48 + n / 10; 48 + n mod 10].
Proof.
  intros Hn.
  assert (all_bits 7 0
            (λ c, (100 <=? c)
                  || bool_decide (zero_padded 2 c = [48 + c / 10; 48 + c mod 10]))
          = true) as Hall by (vm_compute; reflexivity).
  apply (all_below 7 _ 100) with (c := n) in Hall;
    [by apply bool_decide_eq_true in Hall|vm_compute; discriminate|done].
Qed.

Lemma zero_padded_4 n :
  n < 10000 →
  zero_padded 4 n
  = [48 + n / 1000; 48 + n / 100 mod 10; 48 + n / 10 mod 10; 48 + n mod 10].
Proof.
  intros Hn.
  assert (all_bits 14 0
            (λ c, (10000 <=? c)
                  || bool_decide
                       (zero_padded 4 c
                        = [48 + c / 1000; 48 + c / 100 mod 10; 48 + c / 10 mod 10;
                           48 + c mod 10]))
          = true) as Hall by (vm_compute; reflexivity).
  apply (all_below 14 _ 10000) with (c := n) in Hall;
    [by apply bool_decide_eq_true in Hall|vm_compute; discriminate|done].
Qed.

Lemma valid_datetime_bounds t :
  valid_datetime t = true →
  1000 ≤ year t ≤ 9999 ∧ 1 ≤ month t ≤ 12 ∧ 1 ≤ day t ≤ 31
  ∧ hour t ≤ 23 ∧ minute t ≤ 59 ∧ second t ≤ 59.
Proof.
  unfold valid_datetime. rewrite !andb_true_iff, !N.leb_le. lia.
Qed.

Lemma strftime_digits t :
  valid_datetime t = true →
  strftime t
  = [48 + year t / 1000; 48 + year t / 100 mod 10; 48 + year t / 10 mod 10;
     48 + year t mod 10;
     48 + month t / 10; 48 + month t mod 10;
     48 + day t / 10; 48 + day t mod 10;
     95;
     48 + hour t / 10; 48 + hour t mod 10;
     48 + minute t / 10; 48 + minute t mod 10;
     48 + second t / 10; 48 + second t mod 10].
Proof.
  intros Hv%valid_datetime_bounds. unfold strftime.
  rewrite zero_padded_4, !zero_padded_2 by lia. done.
Qed.

(** X11. The name of a snapshot.  For a moment in the years 1000 to 9999 it
    is [snapshots/tour_], eight digits, an underscore, six digits and
    [.json]: 35 characters. *)
Theorem snapshot_path_shape t :
  valid_datetime t = true →
  ∃ date time,
    snapshot_path t
    = lit "snapshots/tour_" ++ date ++ lit "_" ++ time ++ lit ".json"
    ∧ length date = 8%nat ∧ length time = 6%nat
    ∧ Forall (λ c, is_digit c = true) date
    ∧ Forall (λ c, is_digit c = true) time
    ∧ length (snapshot_path t) = 35%nat.
Proof.
  intros Hv. pose proof (valid_datetime_bounds t Hv) as Hb.
  unfold snapshot_path, path_join. rewrite (strftime_digits t Hv).
  eexists [_; _; _; _; _; _; _; _], [_; _; _; _; _; _].
  split; [reflexivity|]. split; [done|]. split; [done|].
  assert (∀ d, d < 10 → is_digit (48 + d) = true) as Hd.
  { intros d Hlt. unfold is_digit. apply andb_true_iff.
    rewrite !N.leb_le. lia. }
  split_and!; [| |vm_compute; reflexivity].
  - repeat constructor; apply Hd;
      first [apply N.mod_lt; lia | apply N.Div0.div_lt_upper_bound; lia].
  - repeat constructor; apply Hd;
      first [apply N.mod_lt; lia | apply N.Div0.div_lt_upper_bound; lia].
Qed.

Lemma snapshot_path_shape_witness :
  valid_datetime noon = true
  ∧ snapshot_path noon = lit "snapshots/tour_20240309_120005.json".
Proof.
  split; [reflexivity|].
  destruct (snapshot_path_shape noon eq_refl) as (date & time & _).
  vm_compute. reflexivity.
Defined.

Lemma two_digits n m :
  n < 100 → m < 100 → n / 10 = m / 10 → n mod 10 = m mod 10 → n = m.
Proof.
  intros. rewrite (N.div_mod n 10), (N.div_mod m 10) by lia. congruence.
Qed.

Lemma four_digits y :
  y = 1000 * (y / 1000) + 100 * (y / 100 mod 10) + 10 * (y / 10 mod 10) + y mod 10.
Proof.
  assert (y / 10 / 10 = y / 100) as E2 by (by rewrite N.Div0.div_div).
  assert (y / 100 / 10 = y / 1000) as E3 by (by rewrite N.Div0.div_div).
  pose proof (N.div_mod y 10 ltac:(lia)) as H1.
  pose proof (N.div_mod (y / 10) 10 ltac:(lia)) as H2.
  pose proof (N.div_mod (y / 100) 10 ltac:(lia)) as H3.
  rewrite E2 in H2. rewrite E3 in H3.
  generalize dependent (y / 1000). generalize dependent (y / 100 mod 10).
  generalize dependent (y / 100). generalize dependent (y / 10 mod 10).
  generalize dependent (y / 10). generalize dependent (y mod 10).
  intros. lia.
Qed.

(** X12. Snapshots taken at different seconds have different names: within
    the years 1000 to 9999 the name determines the moment, so no snapshot
    takes the place of one of another second. *)
Theorem snapshot_path_inj t1 t2 :
  valid_datetime t1 = true → valid_datetime t2 = true →
  snapshot_path t1 = snapshot_path t2 → t1 = t2.
Proof.
  intros Hv1 Hv2 Heq.
  pose proof (valid_datetime_bounds t1 Hv1) as Hb1.
  pose proof (valid_datetime_bounds t2 Hv2) as Hb2.
  unfold snapshot_path, path_join in Heq.
  apply app_inv_head in Heq. apply app_inv_head in Heq.
  apply app_inv_head in Heq. apply app_inv_tail in Heq.
  rewrite (strftime_digits t1 Hv1), (strftime_digits t2 Hv2) in Heq.
  injection Heq as Hy3 Hy2 Hy1 Hy0 Hm1 Hm0 Hd1 Hd0 HH1 HH0 HM1 HM0 HS1 HS0.
  destruct t1 as [y1 m1 d1 H1 M1 S1], t2 as [y2 m2 d2 H2 M2 S2]. simpl in *.
  f_equal; try (apply two_digits; lia).
  rewrite (four_digits y1), (four_digits y2). lia.
Qed.

Lemma snapshot_path_inj_witness :
  valid_datetime noon = true ∧ valid_datetime later = true
  ∧ noon ≠ later ∧ snapshot_path noon ≠ snapshot_path later.
Proof.
  split; [reflexivity|]. split; [reflexivity|]. split; [discriminate|].
  intros Heq. by pose proof (snapshot_path_inj noon later eq_refl eq_refl Heq).
Defined.

Lemma decodes_back_all c : decodes_back c = true.
Proof.
  destruct (N.lt_ge_cases c 1114112) as [Hc|Hc].
  - assert (all_bits 21 0 (λ c, (1114112 <=? c) || decodes_back c) = true) as Hall
      by (vm_compute; reflexivity).
    by apply (all_below 21 _ 1114112) with (c := c) in Hall;
      [|vm_compute; discriminate|].
  - unfold decodes_back. destruct (utf8_char c) as [bs|] eqn:Hu; [|done].
    assert (scalar c = true) as Hs by (apply utf8_char_scalar; eauto).
    unfold scalar in Hs. apply andb_true_iff in Hs as [Hs _].
    apply N.ltb_lt in Hs. lia.
Qed.

Lemma decode_utf8_char c bs rest :
  utf8_char c = Some bs →
  decode_utf8 (bs ++ rest) = cons c <$> decode_utf8 rest
  ∧ Forall (λ b, b < 256) bs.
Proof.
  intros Hu. pose proof (decodes_back_all c) as Hd.
  unfold decodes_back in Hd. rewrite Hu in Hd.
  apply andb_true_iff in Hd as [Hr Hd]. split.
  - destruct bs as [|b0 [|b1 [|b2 [|b3 [|]]]]]; try done.
    + apply andb_true_iff in Hd as [H0 ->%N.eqb_eq].
      cbn [app decode_utf8]. by rewrite H0.
    + apply andb_true_iff in Hd as [[H0%negb_true_iff H1]%andb_true_iff Hd].
      cbn [app decode_utf8]. rewrite H0, H1.
      destruct (utf8_seq2 b0 b1) as [c'|]; [|done].
      by apply N.eqb_eq in Hd as ->.
    + apply andb_true_iff in Hd as [[H0%negb_true_iff H1]%andb_true_iff Hd].
      assert ((b0 <? 128) = false) as H2
        by (apply N.ltb_ge; apply N.ltb_ge in H0; lia).
      cbn [app decode_utf8]. rewrite H2, H0, H1.
      destruct (utf8_seq3 b0 b1 b2) as [c'|]; [|done].
      by apply N.eqb_eq in Hd as ->.
    + apply andb_true_iff in Hd as [H0%negb_true_iff Hd].
      assert ((b0 <? 128) = false) as H2
        by (apply N.ltb_ge; apply N.ltb_ge in H0; lia).
      assert ((b0 <? 224) = false) as H3
        by (apply N.ltb_ge; apply N.ltb_ge in H0; lia).
      cbn [app decode_utf8]. rewrite H2, H3, H0.
      destruct (utf8_seq4 b0 b1 b2 b3) as [c'|]; [|done].
      by apply N.eqb_eq in Hd as ->.
  - apply Forall_forall. intros b Hb.
    rewrite <-Is_true_true, forallb_True, Forall_forall in Hr.
    apply Hr in Hb. apply Is_true_true, N.ltb_lt in Hb. done.
Qed.

Lemma decode_utf8_bytes s bs :
  utf8_bytes s = Some bs →
  decode_utf8 bs = Some s ∧ Forall (λ b, b < 256) bs.
Proof.
  revert bs. induction s as [|c s IH]; intros bs; cbn [utf8_bytes].
  - by intros [= <-].
  - destruct (utf8_char c) as [b|] eqn:Hc; [|done].
    destruct (utf8_bytes s) as [bs'|]; [|done]. intros [= <-].
    destruct (IH bs' eq_refl) as [Hd Hr].
    destruct (decode_utf8_char c b bs' Hc) as [-> Hb].
    rewrite Hd. split; [done|by apply Forall_app].
Qed.

(** X13. What the program writes in UTF-8 is read back as the same text: the
    bytes of a text the codec accepts are bytes (below 256), the strict
    decoder accepts them and returns the text; so two texts with the same
    bytes are equal. *)
Theorem utf8_round_trip s b :
  encode_utf8 s = Ok b →
  decode_utf8 b = Some s
  ∧ Forall (λ x, x < 256) b
  ∧ ∀ s', encode_utf8 s' = Ok b → s' = s.
Proof.
  unfold encode_utf8. destruct (utf8_bytes s) as [bs|] eqn:Hs; [|done].
  intros [= <-]. destruct (decode_utf8_bytes s bs Hs) as [Hd Hr].
  split_and!; [done..|]. intros s'.
  destruct (utf8_bytes s') as [bs'|] eqn:Hs'; [|done]. intros [= ->].
  apply decode_utf8_bytes in Hs' as [Hd' _]. congruence.
Qed.

Lemma utf8_round_trip_witness :
  encode_utf8 [233; 8364; 128512; 65]
    = Ok [195; 169; 226; 130; 172; 240; 159; 152; 128; 65]
  ∧ decode_utf8 [195; 169; 226; 130; 172; 240; 159; 152; 128; 65]
    = Some [233; 8364; 128512; 65].
Proof.
  assert (encode_utf8 [233; 8364; 128512; 65]
          = Ok [195; 169; 226; 130; 172; 240; 159; 152; 128; 65]) as H
    by (vm_compute; reflexivity).
  split; [exact H|]. exact (proj1 (utf8_round_trip _ _ H)).
Defined.

Lemma escape_char_high c : 128 ≤ c → escape_char c = [c].
Proof.
  intros Hc. unfold escape_char, DQUOTE, BACKSLASH.
  rewrite !(proj2 (N.eqb_neq c _)) by lia.
  by rewrite (proj2 (N.ltb_ge c 32)) by lia.
Qed.

Lemma escapes_apart_all c : c < 128 → escapes_apart c = true.
Proof.
  assert (all_bits 7 0 (λ c, (128 <=? c) || escapes_apart c) = true) as Hall
    by (vm_compute; reflexivity).
  intros Hc.
  by apply (all_below 7 _ 128) with (c := c) in Hall; [|vm_compute; discriminate|].
Qed.

Lemma escape_char_head c :
  ∃ h t, escape_char c = h :: t ∧ h ≠ DQUOTE ∧ (c < 128 ↔ h < 128).
Proof.
  destruct (N.lt_ge_cases c 128) as [Hc|Hc].
  - pose proof (escapes_apart_all c Hc) as Ha. unfold escapes_apart in Ha.
    destruct (escape_char c) as [|h t]; [done|].
    apply andb_true_iff in Ha as [[Hq Hh]%andb_true_iff _].
    exists h, t. split; [done|]. split.
    + intros ->. done.
    + apply N.ltb_lt in Hh. done.
  - rewrite escape_char_high by done. exists c, [].
    split; [done|]. split; [unfold DQUOTE; lia|lia].
Qed.

Lemma escape_char_prefix c1 c2 :
  escape_char c1 `prefix_of` escape_char c2 → c1 = c2.
Proof.
  intros Hp.
  destruct (N.lt_ge_cases c1 128) as [H1|H1], (N.lt_ge_cases c2 128) as [H2|H2].
  - pose proof (escapes_apart_all c1 H1) as Ha. unfold escapes_apart in Ha.
    destruct (escape_char c1) as [|h t] eqn:He; [done|].
    apply andb_true_iff in Ha as [_ Ha].
    pose proof (all_bits_spec 7 _ 0 Ha c2 ltac:(simpl; lia)) as Hc.
    apply orb_true_iff in Hc as [Hc|Hc]; [|by apply N.eqb_eq].
    apply negb_true_iff, bool_decide_eq_false in Hc. done.
  - destruct (escape_char_head c1) as (h & t & He & _ & Hh).
    rewrite He, (escape_char_high c2) in Hp by done.
    destruct Hp as [k [= <- _]]. lia.
  - destruct (escape_char_head c2) as (h & t & He & _ & Hh).
    rewrite He, (escape_char_high c1) in Hp by done.
    destruct Hp as [k [= <- _]]. lia.
  - rewrite !escape_char_high in Hp by done. by destruct Hp as [k [= <- _]].
Qed.

Lemma escape_char_inj c1 c2 x1 x2 :
  escape_char c1 ++ x1 = escape_char c2 ++ x2 → c1 = c2 ∧ x1 = x2.
Proof.
  intros He. assert (c1 = c2) as ->.
  { apply app_eq_inv in He as [(k & Hk & _)|(k & Hk & _)].
    - symmetry. apply escape_char_prefix. by exists k.
    - apply escape_char_prefix. by exists k. }
  split; [done|]. by apply app_inv_head in He.
Qed.

(** A string literal is read back, whatever follows it. *)
Lemma py_encode_basestring_inj s1 s2 r1 r2 :
  py_encode_basestring s1 ++ r1 = py_encode_basestring s2 ++ r2 →
  s1 = s2 ∧ r1 = r2.
Proof.
  unfold py_encode_basestring. cbn [app]. intros [= He]. revert s2 He.
  induction s1 as [|c1 s1 IH]; intros [|c2 s2]; cbn [fmap list_fmap concat app].
  - by intros [= ->].
  - rewrite <-!app_assoc. destruct (escape_char_head c2) as (h & t & -> & Hh & _).
    intros [= <- _]. done.
  - rewrite <-!app_assoc. destruct (escape_char_head c1) as (h & t & -> & Hh & _).
    intros [= -> _]. done.
  - rewrite <-!app_assoc. intros [-> He]%escape_char_inj.
    rewrite !app_assoc in He. destruct (IH _ He) as [-> ->]. done.
Qed.

(** *** Numbers and names *)

Lemma lit_inj s1 s2 : lit s1 = lit s2 → s1 = s2.
Proof.
  unfold lit. intros H.
  assert (Inj (=) (=) N_of_ascii) as Hinj.
  { intros a b Hab. by rewrite <-(ascii_N_embedding a), Hab, ascii_N_embedding. }
  apply (inj (fmap N_of_ascii)) in H.
  by rewrite <-(String.string_of_list_ascii_of_string s1), H,
    String.string_of_list_ascii_of_string.
Qed.

Lemma Z_to_int_nonnil n :
  Z.to_int n ≠ Decimal.Pos Decimal.Nil ∧ Z.to_int n ≠ Decimal.Neg Decimal.Nil.
Proof.
  destruct n as [|p|p]; simpl; split; try done;
    intros [= H]; by apply DecimalPos.Unsigned.to_uint_nonnil in H.
Qed.

Lemma int_repr_inj n1 n2 : int_repr n1 = int_repr n2 → n1 = n2.
Proof.
  unfold int_repr. intros H%lit_inj.
  apply (f_equal NilZero.int_of_string) in H.
  destruct (Z_to_int_nonnil n1), (Z_to_int_nonnil n2).
  rewrite !NilZero.isi in H by done. injection H as H.
  by rewrite <-(DecimalZ.of_to n1), H, DecimalZ.of_to.
Qed.

Lemma uint_chars d :
  Forall (λ c, is_digit c = true) (lit (NilEmpty.string_of_uint d)).
Proof. induction d; by constructor. Qed.

Lemma int_repr_chars n :
  ∃ c t, int_repr n = c :: t ∧ Forall (λ c, int_char c = true) (c :: t).
Proof.
  assert (∀ d, ∃ c t, lit (NilZero.string_of_uint d) = c :: t
                      ∧ Forall (λ c, is_digit c = true) (c :: t)) as Hu.
  { intros d. pose proof (uint_chars d) as Hd.
    destruct d; try (eexists _, _; split; [reflexivity|exact Hd]).
    eexists _, _. split; [reflexivity|by repeat constructor]. }
  assert (∀ s, Forall (λ c, is_digit c = true) s
               → Forall (λ c, int_char c = true) s) as Hi.
  { intros s Hs. eapply Forall_impl; [exact Hs|].
    intros c Hc. unfold int_char. by rewrite Hc. }
  unfold int_repr. destruct (Z.to_int n) as [d|d]; cbn [NilZero.string_of_int].
  - destruct (Hu d) as (c & t & -> & Hd). eauto.
  - destruct (Hu d) as (c & t & Hd & Hf).
    exists 45, (lit (NilZero.string_of_uint d)). split; [reflexivity|].
    constructor; [done|]. apply Hi. by rewrite Hd.
Qed.

Lemma int_char_open c : int_char c = true → closes c = false.
Proof.
  intros H. unfold closes.
  destruct (N.eqb_spec c 44) as [->|]; [by vm_compute in H|].
  destruct (N.eqb_spec c 93) as [->|]; [by vm_compute in H|].
  destruct (N.eqb_spec c 125) as [->|]; [by vm_compute in H|]. done.
Qed.

Lemma int_char_word c : int_char c = true → c ≠ 34 ∧ c ≠ 91 ∧ c ≠ 123.
Proof. intros H. split_and!; intros ->; by vm_compute in H. Qed.

Lemma float_char_open c : float_char c = true → closes c = false.
Proof.
  intros H. unfold closes.
  destruct (N.eqb_spec c 44) as [->|]; [by vm_compute in H|].
  destruct (N.eqb_spec c 93) as [->|]; [by vm_compute in H|].
  destruct (N.eqb_spec c 125) as [->|]; [by vm_compute in H|]. done.
Qed.

Lemma float_text_not_int n : float_text (int_repr n) = false.
Proof.
  destruct (int_repr_chars n) as (c & t & -> & Hf). unfold float_text.
  assert (forallb int_char (c :: t) = true) as ->; [|by rewrite andb_false_r].
  apply Is_true_true, forallb_True. eapply Forall_impl; [exact Hf|].
  intros x Hx. by apply Is_true_true.
Qed.

Lemma int_repr_no_name n s :
  from_option int_char true (head (lit s)) = false → int_repr n ≠ lit s.
Proof.
  intros Hs He. destruct (int_repr_chars n) as (c & t & E & Hf).
  rewrite <-He, E in Hs. inversion Hf; subst. simpl in Hs. congruence.
Qed.

Lemma word_inj e l1 l2 o1 o2 :
  word o1 = true → word o2 = true →
  plain_floats o1 = true → plain_floats o2 = true →
  iterencode e l1 o1 = iterencode e l2 o2 → o1 = o2.
Proof.
  destruct o1 as [|[|]|n1|t1| | |], o2 as [|[|]|n2|t2| | |];
    cbn [word iterencode plain_floats]; intros Hw1 Hw2 Hp1 Hp2 He;
    try done; clear Hw1 Hw2;
    try (by vm_compute in He);
    try (by apply int_repr_no_name in He);
    try (by symmetry in He; apply int_repr_no_name in He);
    try (by subst; vm_compute in Hp1);
    try (by subst; vm_compute in Hp2);
    try (by subst; rewrite float_text_not_int in Hp1);
    try (by subst; rewrite float_text_not_int in Hp2).
  by apply int_repr_inj in He as ->.
Qed.

Lemma word_open e l o :
  word o = true → plain_floats o = true →
  Forall (λ c, closes c = false) (iterencode e l o).
Proof.
  destruct o as [|[|]|n|t| | |]; cbn [word iterencode plain_floats];
    intros Hw Hp; try done; try (by repeat constructor).
  - destruct (int_repr_chars n) as (c & t & -> & Hf).
    eapply Forall_impl; [exact Hf|]. apply int_char_open.
  - unfold float_text in Hp. destruct t as [|c t]; [done|].
    apply andb_true_iff in Hp as [[_ Hp]%andb_true_iff _].
    apply Is_true_true, forallb_True in Hp.
    eapply Forall_impl; [exact Hp|]. intros x Hx%Is_true_true.
    by apply float_char_open.
Qed.

Lemma word_split (w1 w2 r1 r2 : pystr) :
  Forall (λ c, closes c = false) w1 → Forall (λ c, closes c = false) w2 →
  delimited r1 → delimited r2 →
  w1 ++ r1 = w2 ++ r2 → w1 = w2 ∧ r1 = r2.
Proof.
  intros H1. revert w2. induction H1 as [|c1 w1 Hc1 H1 IH]; intros w2 H2 Hd1 Hd2.
  - destruct H2 as [|c2 w2 Hc2 H2]; cbn [app]; [done|].
    intros ->. simpl in Hd1. congruence.
  - destruct H2 as [|c2 w2 Hc2 H2]; cbn [app].
    + intros <-. simpl in Hd2. congruence.
    + intros [= -> He]. by destruct (IH _ H2 Hd1 Hd2 He) as [-> ->].
Qed.

Lemma iterencode_lead l o :
  plain_floats o = true →
  ∃ c t, iterencode compact l o = c :: t ∧ closes c = false ∧ lead o c.
Proof.
  intros Hp. destruct o as [|[|]|n|t|s|xs|items]; cbn [iterencode lead].
  - by eexists _, _.
  - by eexists _, _.
  - by eexists _, _.
  - destruct (int_repr_chars n) as (c & t & -> & Hf). inversion Hf; subst.
    exists c, t. split; [done|]. split; [by apply int_char_open|].
    by apply int_char_word.
  - simpl in Hp. unfold float_text in Hp. destruct t as [|c t]; [done|].
    apply andb_true_iff in Hp as [[Hc Hp]%andb_true_iff _].
    exists c, t. split; [done|]. split.
    + simpl in Hp. apply andb_true_iff in Hp as [Hp _]. by apply float_char_open.
    + split_and!; intros ->; by vm_compute in Hc.
  - by eexists _, _.
  - destruct xs; by eexists _, _.
  - destruct items; by eexists _, _.
Qed.

(** *** Lists and dicts *)

Lemma join_cons sep p ps :
  join sep (p :: ps) = p ++ concat ((λ q, sep ++ q) <$> ps).
Proof.
  revert p. induction ps as [|q ps IH]; intros p.
  - by rewrite app_nil_r.
  - change (join sep (p :: q :: ps)) with (p ++ sep ++ join sep (q :: ps)).
    rewrite IH. cbn [fmap list_fmap concat]. by rewrite <-!app_assoc.
Qed.

Lemma iterencode_list l xs :
  ∃ body, iterencode compact l (JList xs) = 91 :: body
    ∧ (44 :: body
       = concat ((λ o, 44 :: iterencode compact (S l) o) <$> xs) ++ [93]
       ∨ xs = [] ∧ body = [93]).
Proof.
  destruct xs as [|x xs]; [exists [93]; by auto|].
  exists (iterencode compact (S l) x
          ++ concat ((λ o, 44 :: iterencode compact (S l) o) <$> xs) ++ [93]).
  split.
  - cbn [iterencode newline_indent compact indent item_separator].
    rewrite fmap_cons, join_cons, <-list_fmap_compose.
    change (lit "[") with [91]. change (lit "]") with [93].
    change (lit ",") with [44]. cbn [app]. by rewrite <-app_assoc.
  - left. cbn [fmap list_fmap concat app]. by rewrite <-app_assoc.
Qed.

Lemma iterencode_dict l items :
  ∃ body, iterencode compact l (JDict items) = 123 :: body
    ∧ (44 :: body
       = concat ((λ kv, 44 :: item_text (S l) kv) <$> sorted_items items) ++ [125]
       ∨ items = [] ∧ body = [125]).
Proof.
  destruct items as [|kv items]; [exists [125]; by auto|].
  assert (∃ y ys, sorted_items (kv :: items) = y :: ys) as (y & ys & Hs).
  { pose proof (sorted_items_perm (kv :: items)) as Hp.
    destruct (sorted_items (kv :: items)) as [|y ys]; [|by eauto].
    by apply Permutation_nil_l in Hp. }
  exists (item_text (S l) y
          ++ concat ((λ kv, 44 :: item_text (S l) kv) <$> ys) ++ [125]).
  split.
  - cbn [iterencode newline_indent compact indent item_separator key_separator].
    rewrite (sorted_items_encoded (iterencode compact (S l))), <-list_fmap_compose.
    rewrite Hs, fmap_cons, join_cons, <-list_fmap_compose.
    change (lit "{") with [123]. change (lit "}") with [125].
    change (lit ",") with [44]. change (lit ":") with [58].
    cbn [app]. by rewrite <-app_assoc.
  - left. rewrite Hs. cbn [fmap list_fmap concat app]. by rewrite <-app_assoc.
Qed.

(** The items of a list or dict, each after a comma, up to the closing
    bracket, are read back one by one. *)
Lemma items_inj {A B} (f : A → pystr) (g : B → pystr) (R : A → B → Prop)
    (P : B → Prop) (close : N) xs :
  close = 93 ∨ close = 125 →
  Forall (λ x, ∀ y q1 q2, P y → delimited q1 → delimited q2 →
                f x ++ q1 = g y ++ q2 → R x y ∧ q1 = q2) xs →
  ∀ ys r1 r2, Forall P ys →
    concat ((λ x, 44 :: f x) <$> xs) ++ close :: r1
    = concat ((λ y, 44 :: g y) <$> ys) ++ close :: r2 →
    Forall2 R xs ys ∧ r1 = r2.
Proof.
  intros Hc Hxs.
  assert (closes close = true) as Hclose by (by destruct Hc as [->| ->]).
  assert (∀ (C : Type) (h : C → pystr) zs r,
            delimited (concat ((λ z, 44 :: h z) <$> zs) ++ close :: r)) as Hd.
  { intros C h [|z zs] r; [exact Hclose|done]. }
  induction Hxs as [|x xs Hx Hxs IH]; intros ys r1 r2 Hys;
    destruct Hys as [|y ys Hy Hys]; cbn [fmap list_fmap concat app].
  - intros [= ->]. done.
  - intros [= -> _]. by destruct Hc.
  - intros [= <- _]. by destruct Hc.
  - intros [= He]. rewrite <-!app_assoc in He.
    apply Hx in He as [HR He]; [|done|apply Hd..].
    destruct (IH _ _ _ Hys He) as [HF ->]. split; [by constructor|done].
Qed.

(** The compact text is read back: the value up to the order of keys, and
    what follows it. *)
Lemma iterencode_inj o1 :
  plain_floats o1 = true →
  ∀ o2 l1 l2 r1 r2, plain_floats o2 = true → delimited r1 → delimited r2 →
    iterencode compact l1 o1 ++ r1 = iterencode compact l2 o2 ++ r2 →
    reorder o1 o2 ∧ r1 = r2.
Proof.
  assert (∀ o1 o2 l1 l2 r1 r2,
            plain_floats o1 = true → plain_floats o2 = true →
            iterencode compact l1 o1 ++ r1 = iterencode compact l2 o2 ++ r2 →
            ∃ c, lead o1 c ∧ lead o2 c) as Hlead.
  { intros a b l1 l2 r1 r2 Hp1 Hp2 He.
    destruct (iterencode_lead l1 a Hp1) as (c1 & t1 & E1 & _ & L1).
    destruct (iterencode_lead l2 b Hp2) as (c2 & t2 & E2 & _ & L2).
    rewrite E1, E2 in He. injection He as -> _. eauto. }
  assert (∀ o1 o2 l1 l2 r1 r2,
            word o1 = true → word o2 = true →
            plain_floats o1 = true → plain_floats o2 = true →
            delimited r1 → delimited r2 →
            iterencode compact l1 o1 ++ r1 = iterencode compact l2 o2 ++ r2 →
            reorder o1 o2 ∧ r1 = r2) as Hword.
  { intros a b l1 l2 r1 r2 Hw1 Hw2 Hp1 Hp2 Hd1 Hd2 He.
    apply word_split in He as [He ->]; [|by apply word_open..|done|done].
    apply word_inj in He as <-; [|done..]. split; [|done].
    destruct a; try done; constructor. }
  induction o1 as [|b1|n1|t1|s1|xs1 IH|items1 IH] using json_ind';
    intros Hp1 o2 l1 l2 r1 r2 Hp2 Hd1 Hd2 He;
    pose proof (Hlead _ _ _ _ _ _ Hp1 Hp2 He) as (c & L1 & L2);
    destruct o2 as [|b2|n2|t2|s2|xs2|items2]; cbn [lead] in L1, L2;
    try (exfalso; lia); try (by apply (Hword _ _ l1 l2)); clear c L1 L2 Hword Hlead.
  - (* strings *)
    cbn [iterencode] in He. apply py_encode_basestring_inj in He as [-> ->].
    split; [constructor|done].
  - (* lists *)
    destruct (iterencode_list l1 xs1) as (b1 & E1 & H1).
    destruct (iterencode_list l2 xs2) as (b2 & E2 & H2).
    rewrite E1, E2 in He. cbn [app] in He. injection He as He.
    apply (f_equal (cons 44)) in He. rewrite !app_comm_cons in He.
    simpl in Hp1, Hp2. apply Is_true_true, forallb_True in Hp1, Hp2.
    assert (Forall (λ o, plain_floats o = true) xs2) as Hp2'.
    { eapply Forall_impl; [exact Hp2|]. by intros o ?%Is_true_true. }
    destruct H1 as [H1|[-> ->]], H2 as [H2|[-> ->]].
    + rewrite H1, H2, <-!app_assoc in He. cbn [app] in He.
      apply (items_inj _ _ reorder (λ o, plain_floats o = true)) in He
        as [HF ->]; [split; [by constructor|done]|by left| |done].
      apply Forall_forall. intros x Hx y q1 q2 Hy Hq1 Hq2 Hxy.
      rewrite Forall_forall in IH, Hp1.
      eapply (IH x Hx); [apply Is_true_true, Hp1, Hx|exact Hy|done..].
    + destruct xs1 as [|x xs1]; [done|].
      exfalso. cbn [fmap list_fmap concat app] in H1. injection H1 as ->.
      inversion Hp1 as [|? ? Hx%Is_true_true]; subst.
      destruct (iterencode_lead (S l1) x Hx) as (c & t & E & Hc & _).
      rewrite E in He. cbn [app] in He. injection He as -> _. done.
    + destruct xs2 as [|y xs2]; [done|].
      exfalso. cbn [fmap list_fmap concat app] in H2. injection H2 as ->.
      inversion Hp2 as [|? ? Hy%Is_true_true]; subst.
      destruct (iterencode_lead (S l2) y Hy) as (c & t & E & Hc & _).
      rewrite E in He. cbn [app] in He. injection He as <- _. done.
    + injection He as ->. split; [repeat constructor|done].
  - (* dicts *)
    destruct (iterencode_dict l1 items1) as (b1 & E1 & H1).
    destruct (iterencode_dict l2 items2) as (b2 & E2 & H2).
    rewrite E1, E2 in He. cbn [app] in He. injection He as He.
    apply (f_equal (cons 44)) in He. rewrite !app_comm_cons in He.
    simpl in Hp1, Hp2. apply Is_true_true, forallb_True in Hp1, Hp2.
    destruct H1 as [H1|[-> ->]], H2 as [H2|[-> ->]].
    + rewrite H1, H2, <-!app_assoc in He. cbn [app] in He.
      apply (items_inj _ _ (λ a b : pystr * json, a.1 = b.1 ∧ reorder a.2 b.2)
               (λ kv, plain_floats kv.2 = true)) in He as [HF ->]; [|by right| |].
      * split; [|done].
        apply Forall2_flip in HF.
        destruct (Permutation_Forall2 (sorted_items_perm items2) HF)
          as (items & Hperm & HF').
        apply (reorder_dict _ items); [by rewrite <-Hperm, sorted_items_perm|].
        by apply Forall2_flip.
      * rewrite <-(sorted_items_perm items1) in IH, Hp1.
        apply Forall_forall. intros x Hx y q1 q2 Hy Hq1 Hq2 Hxy.
        rewrite Forall_forall in IH, Hp1. unfold item_text in Hxy.
        rewrite <-!app_assoc in Hxy.
        apply py_encode_basestring_inj in Hxy as [Hk Hxy].
        cbn [app] in Hxy. injection Hxy as Hxy.
        edestruct (IH x Hx) as [Hr Hq];
          [apply Is_true_true, Hp1, Hx|exact Hy|exact Hq1|exact Hq2|exact Hxy|].
        done.
      * rewrite sorted_items_perm.
        eapply Forall_impl; [exact Hp2|]. by intros o ?%Is_true_true.
    + destruct (sorted_items items1) as [|x S1] eqn:Hs; [done|].
      exfalso. cbn [fmap list_fmap concat app] in H1. injection H1 as ->.
      unfold item_text, py_encode_basestring in He. cbn [app] in He.
      by injection He.
    + destruct (sorted_items items2) as [|y S2] eqn:Hs; [done|].
      exfalso. cbn [fmap list_fmap concat app] in H2. injection H2 as ->.
      unfold item_text, py_encode_basestring in He. cbn [app] in He.
      by injection He.
    + injection He as ->. split; [|done]. by apply (reorder_dict _ []).
Qed.

(** X14. The fingerprint tells documents apart.  Two documents (their floats
    written as Python writes them) with the same compact text differ in the
    order of their keys only; so two documents with the same fingerprint
    differ in the order of their keys only, unless their texts are two
    byte strings on which SHA-256 collides. *)
Theorem calculate_hash_tells_apart o1 o2 :
  plain_floats o1 = true → plain_floats o2 = true →
  (json_dumps compact o1 = json_dumps compact o2 → reorder o1 o2)
  ∧ ∀ h, calculate_hash o1 = Ok h → calculate_hash o2 = Ok h →
      reorder o1 o2
      ∨ ∃ b1 b2, b1 ≠ b2
          ∧ encode_utf8 (json_dumps compact o1) = Ok b1
          ∧ encode_utf8 (json_dumps compact o2) = Ok b2
          ∧ hexdigest (sha256 b1) = hexdigest (sha256 b2).
Proof.
  intros Hp1 Hp2.
  assert (json_dumps compact o1 = json_dumps compact o2 → reorder o1 o2) as Hinj.
  { unfold json_dumps. intros He.
    apply (f_equal (λ t, t ++ [])) in He.
    by apply iterencode_inj in He as [Hr _]. }
  split; [exact Hinj|]. intros h. unfold calculate_hash, encode_utf8.
  destruct (utf8_bytes (json_dumps compact o1)) as [b1|] eqn:E1; [|done].
  destruct (utf8_bytes (json_dumps compact o2)) as [b2|] eqn:E2; [|done].
  intros [= H1] [= H2]. destruct (decide (b1 = b2)) as [->|Hne].
  - left. apply Hinj.
    apply decode_utf8_bytes in E1 as [E1 _], E2 as [E2 _]. congruence.
  - right. exists b1, b2. split_and!; [done..|congruence].
Qed.

Lemma calculate_hash_tells_apart_witness :
  plain_floats tour_1 = true ∧ plain_floats tour_2 = true
  ∧ json_dumps compact tour_1 = json_dumps compact tour_2
  ∧ reorder tour_1 tour_2.
Proof.
  assert (json_dumps compact tour_1 = json_dumps compact tour_2) as He
    by (vm_compute; reflexivity).
  split_and!; [reflexivity|reflexivity|exact He|].
  exact (proj1 (calculate_hash_tells_apart tour_1 tour_2 eq_refl eq_refl) He).
Defined.

(** X15. The snapshot does not see the order of the keys either: on two
    documents that differ in it only, [save_snapshot] does the same, to the
    last byte of the file, in every world. *)
Theorem save_snapshot_stable a b d w :
  wf_json a = true → reorder a b →
  save_snapshot a d w = save_snapshot b d w.
Proof.
  intros Hwf Hr. unfold save_snapshot, json_dumps.
  by rewrite (iterencode_reorder pretty a 0%nat b Hwf Hr).
Qed.

Lemma save_snapshot_stable_witness :
  wf_json tour_1 = true ∧ reorder tour_1 tour_2
  ∧ save_snapshot tour_1 snapshots_dir w_first
    = save_snapshot tour_2 snapshots_dir w_first.
Proof.
  split; [reflexivity|]. split; [exact reorder_tour|].
  apply (save_snapshot_stable tour_1 tour_2); [reflexivity|exact reorder_tour].
Defined.
